(** * setSafeInterval: a shallow embedding of [src/setSafeInterval.tsx]

    The source is a React hook built from three functions:

    - [_safeIntervalTrigger] (lines 78-113), the overlap guard: two state
      cells, [intervalTrigger] and [ready], and two effects;
    - [_setSafeInterval] (lines 39-71), the lifecycle timer: three refs,
      [savedCallback], [timeoutRef], [unmountedRef], and two effects;
    - [setSafeInterval] (lines 19-27), which wires the timer's callback to
      [setIntervalTrigger(true)].

    The hook only runs inside React and the JavaScript timer queue, so the
    embedding carries a small model of both:

    - a render reads the state cells into the render's local variables; the
      effects whose dependency array changed run after it, cleanups first,
      then bodies in declaration order; state updates requested by the
      effects are applied afterwards and cause a further render when they
      change a cell;
    - an event (timer callback, promise settlement, re-render by the
      owner, unmount) is followed by React's renders and effects until
      nothing is left to render; the events [TickRace] and [RerenderRace]
      are those in which further timer callbacks run before React has
      rendered the updates queued by an effect;
    - a setter called with the value its cell already has may cost one more
      render, which runs no effect but whose dependency arrays are kept;
    - updates of an unmounted component are discarded;
    - [setInterval] and [clearInterval] act on a list of live timers with a
      millisecond clock. *)

From Stdlib Require Import ZArith List Bool Arith Lia.
Import ListNotations.
Open Scope Z_scope.

(** ** Outcomes of running JavaScript *)

Inductive Outcome (A : Type) : Type :=
| Done (a : A)   (* ran to completion *)
| Throws         (* uncaught TypeError: a null ref was called *)
| NoFuel         (* the render cascade exceeded React's nested update limit *)
| Refused.       (* the event cannot occur in this state *)

Arguments Done {A} a.
Arguments Throws {A}.
Arguments NoFuel {A}.
Arguments Refused {A}.

Definition bind {A B : Type} (m : Outcome A) (k : A -> Outcome B) : Outcome B :=
  match m with
  | Done a => k a
  | Throws => Throws
  | NoFuel => NoFuel
  | Refused => Refused
  end.

Notation "x <- m ;; k" := (bind m (fun x => k))
  (at level 61, m at next level, right associativity).

(** ** Data *)

(** Arguments of [setSafeInterval] on one render: [paused] and [timeout]
    (the task [callback] is opaque and only counted). *)
Record Props : Type := mkProps {
  paused : bool;
  timeout : Z
}.

(** The [useState] cells of [_safeIntervalTrigger] (lines 79-80).
    [ready = None] is JavaScript's [undefined]. *)
Record Guard : Type := mkGuard {
  intervalTrigger : bool;
  ready : option bool
}.

(** The [useRef] cells of [_setSafeInterval] (lines 40-42).  [savedCallback]
    holds the closure [() => setIntervalTrigger(true)] of some render, named
    here by the number of that render; [None] is [null]. *)
Record Refs : Type := mkRefs {
  savedCallback : option nat;
  timeoutRef : option nat;
  unmountedRef : bool
}.

(** Dependency arrays remembered from the previous render:
    [[intervalTrigger, paused]] (line 111), [[savedCallback.current]]
    (line 47) and [[timeout]] (line 70). *)
Record Deps : Type := mkDeps {
  dep_trigger : bool * bool;
  dep_saved : option nat;
  dep_timeout : Z
}.

(** A live timer of the JavaScript runtime. *)
Record Interval : Type := mkInterval {
  iv_id : nat;
  iv_period : Z;
  iv_due : Z
}.

Record Runtime : Type := mkRuntime {
  clock : Z;
  intervals : list Interval;
  next_id : nat
}.

(** What the hook did to its surroundings: the times at which
    [savedCallback.current()] was called, the number of calls of
    [asyncFunc], and how many of the returned promises are unsettled. *)
Record Calls : Type := mkCalls {
  onTicks : list Z;
  invocations : nat;
  inflight : nat
}.

Record World : Type := mkWorld {
  props : Props;
  guard : Guard;
  refs : Refs;
  memo : option Deps;     (* [None] before the first render *)
  mounted : bool;
  renders : nat;
  runtime : Runtime;
  calls : Calls
}.

Definition with_props (p : Props) (w : World) : World :=
  mkWorld p (guard w) (refs w) (memo w) (mounted w) (renders w) (runtime w) (calls w).
Definition with_guard (g : Guard) (w : World) : World :=
  mkWorld (props w) g (refs w) (memo w) (mounted w) (renders w) (runtime w) (calls w).
Definition with_refs (r : Refs) (w : World) : World :=
  mkWorld (props w) (guard w) r (memo w) (mounted w) (renders w) (runtime w) (calls w).
Definition with_memo (m : option Deps) (w : World) : World :=
  mkWorld (props w) (guard w) (refs w) m (mounted w) (renders w) (runtime w) (calls w).
Definition with_mounted (b : bool) (w : World) : World :=
  mkWorld (props w) (guard w) (refs w) (memo w) b (renders w) (runtime w) (calls w).
Definition with_renders (n : nat) (w : World) : World :=
  mkWorld (props w) (guard w) (refs w) (memo w) (mounted w) n (runtime w) (calls w).
Definition with_runtime (rt : Runtime) (w : World) : World :=
  mkWorld (props w) (guard w) (refs w) (memo w) (mounted w) (renders w) rt (calls w).
Definition with_calls (c : Calls) (w : World) : World :=
  mkWorld (props w) (guard w) (refs w) (memo w) (mounted w) (renders w) (runtime w) c.

(** ** Equality tests used by React ([Object.is] on cells and dependencies) *)

Definition opt_bool_eqb (a b : option bool) : bool :=
  match a, b with
  | None, None => true
  | Some x, Some y => Bool.eqb x y
  | _, _ => false
  end.

Definition opt_nat_eqb (a b : option nat) : bool :=
  match a, b with
  | None, None => true
  | Some x, Some y => Nat.eqb x y
  | _, _ => false
  end.

Definition guard_eqb (a b : Guard) : bool :=
  Bool.eqb (intervalTrigger a) (intervalTrigger b) && opt_bool_eqb (ready a) (ready b).

Definition pair_eqb (a b : bool * bool) : bool :=
  Bool.eqb (fst a) (fst b) && Bool.eqb (snd a) (snd b).

(** JavaScript truthiness of a [boolean | undefined]. *)
Definition truthy (v : option bool) : bool :=
  match v with
  | Some true => true
  | _ => false
  end.

(** ** The JavaScript timer queue *)

(** Largest delay Node's timers accept, [2^31 - 1] milliseconds. *)
Definition TIMEOUT_MAX : Z := 2147483647.

(** The period Node (the source types the handle as [NodeJS.Timeout]) runs a
    timer at: the delay asked for when it lies between 1 and [TIMEOUT_MAX],
    and one millisecond otherwise.  Delays are whole milliseconds here. *)
Definition timer_period (t : Z) : Z :=
  if Z.leb 1 t && Z.leb t TIMEOUT_MAX then t else 1.

(** [setInterval(cb, timeout)]: a new timer, first due one period from now. *)
Definition setInterval (period : Z) (rt : Runtime) : Runtime * nat :=
  let p := timer_period period in
  (mkRuntime (clock rt)
             (intervals rt ++ [mkInterval (next_id rt) p (clock rt + p)])
             (S (next_id rt)),
   next_id rt).

(** [clearInterval(id)]; clearing an unknown or cleared id does nothing. *)
Definition clearInterval (id : nat) (rt : Runtime) : Runtime :=
  mkRuntime (clock rt)
            (filter (fun iv => negb (Nat.eqb (iv_id iv) id)) (intervals rt))
            (next_id rt).

(** ** The effects of [_safeIntervalTrigger] *)

(** What an effect of the guard asks for: the two setters and the call of
    the task. *)
Inductive Action : Type :=
| SetIntervalTrigger (b : bool)
| SetReady (b : bool)
| CallAsyncFunc.

(** Lines 83-87, dependencies [[]].  The updater [() => ready = true] also
    writes the render's local [ready]; the only later reader in that render
    is the trigger effect, behind [if (intervalTrigger)]. *)
Definition init_ready_effect (ready_ : option bool) : list Action :=
  match ready_ with
  | None => [SetReady true]
  | Some _ => []
  end.

(** Lines 90-111, dependencies [[intervalTrigger, paused]].  The arguments
    are the render's local variables. *)
Definition trigger_effect (paused_ intervalTrigger_ : bool) (ready_ : option bool)
  : list Action :=
  if negb paused_ then
    if intervalTrigger_ then
      SetIntervalTrigger false ::
        (if truthy ready_ then [SetReady false; CallAsyncFunc] else [])
    else []
  else [].

(** An action acts on the state cells and on the record of calls.  The task
    is taken to return its promise: a task that throws before it returns one
    is outside this model, as it is outside the hook's contract. *)
Definition perform (s : Guard * Calls) (a : Action) : Guard * Calls :=
  match a with
  | SetIntervalTrigger b => (mkGuard b (ready (fst s)), snd s)
  | SetReady b => (mkGuard (intervalTrigger (fst s)) (Some b), snd s)
  | CallAsyncFunc =>
      (fst s, mkCalls (onTicks (snd s))
                      (S (invocations (snd s)))
                      (S (inflight (snd s))))
  end.

Definition perform_all (acts : list Action) (s : Guard * Calls) : Guard * Calls :=
  fold_left perform acts s.

(** ** The effects of [_setSafeInterval] *)

(** Lines 45-47: [savedCallback.current = callback], the closure of render
    [n]. *)
Definition saved_callback_effect (n : nat) (r : Refs) : Refs :=
  mkRefs (Some n) (timeoutRef r) (unmountedRef r).

(** Lines 53-60: the body of the timer effect; it acts on the refs and on
    the timer queue. *)
Definition interval_effect (timeout_ : Z) (s : Refs * Runtime) : Refs * Runtime :=
  match timeoutRef (fst s) with
  | None =>
      (mkRefs (savedCallback (fst s))
              (Some (snd (setInterval timeout_ (snd s))))
              (unmountedRef (fst s)),
       fst (setInterval timeout_ (snd s)))
  | Some _ => s
  end.

(** Lines 62-68: the cleanup returned by the timer effect. *)
Definition interval_cleanup (s : Refs * Runtime) : Refs * Runtime :=
  let r := mkRefs (savedCallback (fst s)) (timeoutRef (fst s)) true in
  match timeoutRef r with
  | Some id => (r, clearInterval id (snd s))
  | None => (r, snd s)
  end.

(** ** One render and its effects *)

Definition is_first (w : World) : bool :=
  match memo w with None => true | Some _ => false end.

(** Which effects run after this render: all on the first one, afterwards
    those whose dependency array changed. *)
Definition run_trigger (w : World) : bool :=
  match memo w with
  | None => true
  | Some d =>
      negb (pair_eqb (dep_trigger d) (intervalTrigger (guard w), paused (props w)))
  end.

Definition run_saved (w : World) : bool :=
  match memo w with
  | None => true
  | Some d => negb (opt_nat_eqb (dep_saved d) (savedCallback (refs w)))
  end.

Definition run_interval (w : World) : bool :=
  match memo w with
  | None => true
  | Some d => negb (Z.eqb (dep_timeout d) (timeout (props w)))
  end.

(** The effects of [_safeIntervalTrigger] (lines 78-113) that run after this
    render. *)
Definition _safeIntervalTrigger (w : World) : list Action :=
  (if is_first w then init_ready_effect (ready (guard w)) else []) ++
  (if run_trigger w
   then trigger_effect (paused (props w)) (intervalTrigger (guard w)) (ready (guard w))
   else []).

(** The effects of [_setSafeInterval] (lines 39-71) that run after this
    render: the cleanup of the timer effect when it is about to run again,
    then the bodies in declaration order. *)
Definition _setSafeInterval (w : World) : Refs * Runtime :=
  let t1 := if run_interval w && negb (is_first w)
            then interval_cleanup (refs w, runtime w)
            else (refs w, runtime w) in
  let r3 := if run_saved w
            then saved_callback_effect (S (renders w)) (fst t1)
            else fst t1 in
  if run_interval w
  then interval_effect (timeout (props w)) (r3, snd t1)
  else (r3, snd t1).

(** One render of [setSafeInterval] (lines 19-27) and its effects.  The
    effects of the two hooks act on disjoint parts of the world (cells and
    calls; refs and timers), so each hook's effects are run as a group. *)
Definition setSafeInterval (w : World) : World :=
  let deps := mkDeps (intervalTrigger (guard w), paused (props w))
                     (savedCallback (refs w)) (timeout (props w)) in
  let gc := perform_all (_safeIntervalTrigger w) (guard w, calls w) in
  let t := _setSafeInterval w in
  mkWorld (props w) (fst gc) (fst t) (Some deps) (mounted w) (S (renders w))
          (snd t) (snd gc).

Arguments setSafeInterval : simpl never.

(** React gives up on a cascade of more than 50 nested updates. *)
Definition nested_update_limit : nat := 50.

(** React renders again for as long as the effects of the last render changed
    a cell, with nothing else running in between. *)
Fixpoint flush (fuel : nat) (w : World) : Outcome World :=
  match fuel with
  | O => NoFuel
  | S fuel' =>
      let w' := setSafeInterval w in
      if guard_eqb (guard w') (guard w) then Done w' else flush fuel' w'
  end.

Arguments flush : simpl never.

(** A render that bails out.  When a setter is called with the value its cell
    already has, React can call the component once more before it gives up:
    no effect runs, but the dependency arrays of that render are the ones it
    remembers from then on. *)
Definition bailout (w : World) : World :=
  with_memo (Some (mkDeps (intervalTrigger (guard w), paused (props w))
                          (savedCallback (refs w)) (timeout (props w))))
            (with_renders (S (renders w)) w).

(** A setter called from outside a render, with React rendering before any
    other callback runs: ignored once unmounted, a bail-out render when the
    cell keeps its value, a render cascade otherwise. *)
Definition dispatch (g : Guard) (w : World) : Outcome World :=
  if negb (mounted w) then Done w
  else if guard_eqb g (guard w) then Done (bailout w)
  else flush nested_update_limit (with_guard g w).

Definition setIntervalTrigger (b : bool) (w : World) : Outcome World :=
  dispatch (mkGuard b (ready (guard w))) w.

Definition setReady (b : bool) (w : World) : Outcome World :=
  dispatch (mkGuard (intervalTrigger (guard w)) (Some b)) w.

(** ** Events *)

(** Lines 54-59: the function given to [setInterval]; line 24 is what
    [savedCallback.current] does. *)
Definition interval_callback (w : World) : Outcome World :=
  if negb (unmountedRef (refs w)) then
    match savedCallback (refs w) with
    | None => Throws
    | Some _ =>
        let c := calls w in
        setIntervalTrigger true
          (with_calls (mkCalls (clock (runtime w) :: onTicks c)
                               (invocations c) (inflight c)) w)
    end
  else Done w.

Inductive Settlement : Type := Fulfilled | Rejected.

(** Lines 102-107: the [then] handler and the [catch] handler. *)
Definition on_settled (s : Settlement) (w : World) : Outcome World :=
  match s with
  | Fulfilled => setReady true w
  | Rejected => setReady true w
  end.

Definition settle (s : Settlement) (w : World) : Outcome World :=
  let c := calls w in
  on_settled s (with_calls (mkCalls (onTicks c) (invocations c) (pred (inflight c))) w).

(** ** Callbacks that run while a render is pending

    React renders the updates that effects queue later, not at once, so a
    timer callback can run after an effect has queued its updates and before
    React has rendered them.  The callback's setter then joins the queue
    behind the effect's setters: the cell takes its value and no render is
    started for it. *)

(** Lines 54-59 and 24, run while a render is pending. *)
Definition late_callback (w : World) : Outcome World :=
  if negb (unmountedRef (refs w)) then
    match savedCallback (refs w) with
    | None => Throws
    | Some _ =>
        let c := calls w in
        let w1 := with_calls (mkCalls (clock (runtime w) :: onTicks c)
                                      (invocations c) (inflight c)) w in
        Done (if mounted w
              then with_guard (mkGuard true (ready (guard w))) w1
              else w1)
    end
  else Done w.

Fixpoint late_callbacks (k : nat) (w : World) : Outcome World :=
  match k with
  | O => Done w
  | S k' => w' <- late_callback w ;; late_callbacks k' w'
  end.

(** A render and its effects; when these queued updates, [k] timer callbacks
    before React renders them; then the rest of the cascade.  When the
    effects queued nothing there is no pending render to run before. *)
Definition flush_racing (k : nat) (w : World) : Outcome World :=
  let w1 := setSafeInterval w in
  if guard_eqb (guard w1) (guard w) then Done w1
  else w2 <- late_callbacks k w1 ;; flush nested_update_limit w2.

Definition dispatch_racing (k : nat) (g : Guard) (w : World) : Outcome World :=
  if negb (mounted w) then Done w
  else if guard_eqb g (guard w) then Done (bailout w)
  else flush_racing k (with_guard g w).

(** The interval callback, followed by [k] more runs of it before React has
    rendered what the first one's effect queued. *)
Definition tick_race (k : nat) (w : World) : Outcome World :=
  if negb (unmountedRef (refs w)) then
    match savedCallback (refs w) with
    | None => Throws
    | Some _ =>
        let c := calls w in
        dispatch_racing k (mkGuard true (ready (guard w)))
          (with_calls (mkCalls (clock (runtime w) :: onTicks c)
                               (invocations c) (inflight c)) w)
    end
  else Done w.

(** First render of the component and its effects. *)
Definition fresh (p : Props) : World :=
  mkWorld p (mkGuard false None) (mkRefs None None false) None true 0%nat
          (mkRuntime 0 [] 1%nat) (mkCalls [] 0%nat 0%nat).

Definition mount (p : Props) : Outcome World :=
  flush nested_update_limit (fresh p).

Definition rerender (p : Props) (w : World) : Outcome World :=
  if mounted w then flush nested_update_limit (with_props p w) else Done w.

(** The owner renders again, and [k] timer callbacks run before React has
    rendered what the effects of that render queued. *)
Definition rerender_race (k : nat) (p : Props) (w : World) : Outcome World :=
  if mounted w then flush_racing k (with_props p w) else Done w.

(** Running the timer effect's cleanup on the world. *)
Definition stop (w : World) : World :=
  let t := interval_cleanup (refs w, runtime w) in
  with_runtime (snd t) (with_refs (fst t) w).

Definition unmount (w : World) : Outcome World :=
  if mounted w then Done (with_mounted false (stop w)) else Done w.

(** One millisecond of the timer queue. *)
Definition due_ids (rt : Runtime) : list nat :=
  map iv_id (filter (fun iv => Z.leb (iv_due iv) (clock rt)) (intervals rt)).

Definition reschedule (id : nat) (rt : Runtime) : Runtime :=
  mkRuntime (clock rt)
            (map (fun iv => if Nat.eqb (iv_id iv) id
                            then mkInterval (iv_id iv) (iv_period iv)
                                            (iv_due iv + iv_period iv)
                            else iv) (intervals rt))
            (next_id rt).

Definition fire (id : nat) (w : World) : Outcome World :=
  if existsb (fun iv => Nat.eqb (iv_id iv) id) (intervals (runtime w))
  then interval_callback (with_runtime (reschedule id (runtime w)) w)
  else Done w.

Fixpoint fire_all (ids : list nat) (w : World) : Outcome World :=
  match ids with
  | [] => Done w
  | id :: ids' => w' <- fire id w ;; fire_all ids' w'
  end.

Definition advance_ms (w : World) : Outcome World :=
  let rt := runtime w in
  let w1 := with_runtime (mkRuntime (clock rt + 1) (intervals rt) (next_id rt)) w in
  fire_all (due_ids (runtime w1)) w1.

Fixpoint elapse (ms : nat) (w : World) : Outcome World :=
  match ms with
  | O => Done w
  | S ms' => w' <- advance_ms w ;; elapse ms' w'
  end.

Inductive Event : Type :=
| Tick                      (* the interval callback is delivered *)
| Elapse (ms : nat)         (* time passes *)
| Settle (s : Settlement)   (* the promise of the running task settles *)
| Rerender (p : Props)      (* the owner renders again, maybe with new arguments *)
| Unmount                   (* the owner is torn down *)
| TickRace (k : nat)        (* a tick, and [k] more while its render is pending *)
| RerenderRace (k : nat) (p : Props).
                            (* a render by the owner, and [k] ticks while the
                               render of what its effects queued is pending *)

Definition step (w : World) (e : Event) : Outcome World :=
  match e with
  | Tick => interval_callback w
  | Elapse ms => elapse ms w
  | Settle s => settle s w
  | Rerender p => rerender p w
  | Unmount => unmount w
  | TickRace k => tick_race k w
  | RerenderRace k p => rerender_race k p w
  end.

(** A promise settles only while one is pending; only a mounted component is
    rendered again or unmounted. *)
Definition enabled (w : World) (e : Event) : bool :=
  match e with
  | Settle _ => negb (Nat.eqb (inflight (calls w)) 0)
  | Rerender _ => mounted w
  | RerenderRace _ _ => mounted w
  | Unmount => mounted w
  | _ => true
  end.

Fixpoint run (es : list Event) (w : World) : Outcome World :=
  match es with
  | [] => Done w
  | e :: es' =>
      if enabled w e then w' <- step w e ;; run es' w' else Refused
  end.

Definition play (p : Props) (es : list Event) : Outcome World :=
  w <- mount p ;; run es w.

Inductive Reachable : World -> Prop :=
| reach_mount p w : mount p = Done w -> Reachable w
| reach_step w e w' :
    Reachable w -> enabled w e = true -> step w e = Done w' -> Reachable w'.

(** ** What a render cascade does to the guard *)

(** Outcome of the trigger effect on a render whose [[intervalTrigger, paused]]
    differs from the remembered one ([stale]): the new cells and whether the
    task was called. *)
Definition react (stale paused_ : bool) (g : Guard) : Guard * bool :=
  if stale && negb paused_ && intervalTrigger g then
    if truthy (ready g) then (mkGuard false (Some false), true)
    else (mkGuard false (ready g), false)
  else (g, false).

Definition bump (b : bool) (n : nat) : nat := if b then S n else n.

(** The state of a world between events: the dependency arrays remembered
    are those of the current cells and arguments. *)
Definition synced (w : World) : Prop :=
  exists d, memo w = Some d /\
            dep_trigger d = (intervalTrigger (guard w), paused (props w)) /\
            dep_timeout d = timeout (props w).

(** ** The invariant of quiescent worlds *)

(** While the timer's callback is not disabled there is exactly the timer
    named by [timeoutRef], with the period given at creation; afterwards
    there is none. *)
Definition timer_ok (w : World) : Prop :=
  if unmountedRef (refs w) then intervals (runtime w) = []
  else exists id due,
      timeoutRef (refs w) = Some id /\
      intervals (runtime w) =
        [mkInterval id (timer_period (timeout (props w))) due] /\
      clock (runtime w) < due.

Record Inv (w : World) : Prop := mkInv {
  inv_synced : synced w;
  inv_ready : ready (guard w) <> None;
  inv_idle : ready (guard w) = Some true -> inflight (calls w) = 0%nat;
  inv_busy : (inflight (calls w) <= 1)%nat;
  inv_live : mounted w = true -> ready (guard w) = Some false ->
             inflight (calls w) = 1%nat;
  inv_saved : savedCallback (refs w) <> None;
  inv_handle : timeoutRef (refs w) <> None;
  inv_timer : timer_ok w;
  inv_gone : mounted w = false -> unmountedRef (refs w) = true
}.

(** What a delivered tick does to the guard: latch the trigger while paused,
    otherwise reset it and start the task when ready. *)
Definition on_tick (paused_ : bool) (g : Guard) : Guard * bool :=
  react (negb (intervalTrigger g)) paused_ (mkGuard true (ready g)).

(** Due time of the first live timer. *)
Definition the_due (w : World) : Z :=
  match intervals (runtime w) with
  | iv :: _ => iv_due iv
  | [] => 0
  end.

(** Times of the ticks of a timer of period [p] started at time 0, up to
    time [n], latest first. *)
Definition tick_times (p n : Z) : list Z :=
  rev (map (fun k => Z.of_nat k * p) (seq 1 (Z.to_nat (n / p)))).

(** A world whose timer was started at time 0, runs with period [p] and has
    been ticking since. *)
Definition ticking (p : Z) (w : World) : Prop :=
  Inv w /\
  unmountedRef (refs w) = false /\
  timer_period (timeout (props w)) = p /\
  0 <= clock (runtime w) /\
  the_due w = (clock (runtime w) / p + 1) * p /\
  onTicks (calls w) = tick_times p (clock (runtime w)).

(** ** Sample worlds *)

Definition world_of (o : Outcome World) : World :=
  match o with
  | Done w => w
  | _ => fresh (mkProps false 0)
  end.

(** Mounted with period 10, not paused, nothing else happened. *)
Definition idle_world : World :=
  Eval vm_compute in world_of (play (mkProps false 10) []).

(** Same, after the first tick at time 10 started the task. *)
Definition busy_world : World :=
  Eval vm_compute in world_of (play (mkProps false 10) [Elapse 10]).

(** Mounted paused with period 10. *)
Definition paused_world : World :=
  Eval vm_compute in world_of (play (mkProps true 10) []).

(** A mounted world whose [ready] cell is still [undefined]. *)
Definition unready_world : World :=
  with_guard (mkGuard false None) idle_world.

(** ** Predicates on worlds and event sequences *)

(** The timer made at mount: [timeoutRef] names it, no other id has been
    handed out since, and every live timer is this one with its period. *)
Definition timer_fixed (h n : nat) (q : Z) (w : World) : Prop :=
  timeoutRef (refs w) = Some h /\
  next_id (runtime w) = n /\
  memo w <> None /\
  Forall (fun iv => iv_id iv = h /\ iv_period iv = q) (intervals (runtime w)).

(** Events that only deliver ticks. *)
Definition is_signal (e : Event) : bool :=
  match e with
  | Tick | Elapse _ | TickRace _ => true
  | _ => false
  end.

Definition only_signals (es : list Event) : bool := forallb is_signal es.

(** The one state in which a delivered tick starts the task: not paused,
    trigger not set, [ready] true, timer callback not disabled. *)
Definition can_start (w : World) : bool :=
  negb (paused (props w)) && negb (intervalTrigger (guard w)) &&
  truthy (ready (guard w)) && negb (unmountedRef (refs w)).

(** What a tick-delivering event does to the guard and the record of calls:
    it starts the task at most once, and only from the one state in which a
    tick can start it; it never clears a trigger that was set. *)
Definition signalled (b : bool) (w w' : World) : Prop :=
  Inv w' /\
  props w' = props w /\
  mounted w' = mounted w /\
  unmountedRef (refs w') = unmountedRef (refs w) /\
  (b = true -> can_start w = true) /\
  invocations (calls w') = bump b (invocations (calls w)) /\
  inflight (calls w') = bump b (inflight (calls w)) /\
  ready (guard w') = (if b then Some false else ready (guard w)) /\
  (intervalTrigger (guard w) = true -> intervalTrigger (guard w') = true).

(** Events that leave the pause flag at [b]: every event but a render by the
    owner with another flag. *)
Definition keeps (b : bool) (e : Event) : bool :=
  match e with
  | Rerender p => Bool.eqb (paused p) b
  | RerenderRace _ p => Bool.eqb (paused p) b
  | _ => true
  end.

Definition keeps_pause (b : bool) (es : list Event) : bool := forallb (keeps b) es.

(** Number of settlements in an event sequence. *)
Definition is_settle (e : Event) : bool :=
  match e with
  | Settle _ => true
  | _ => false
  end.

Definition settlements (es : list Event) : nat := length (filter is_settle es).

(** A task that takes less than a period: after [d] milliseconds of offset,
    each round lets one period pass and then settles the promise. *)
Definition rounds (p : Z) (ss : list Settlement) : list Event :=
  flat_map (fun s => [Elapse (Z.to_nat p); Settle s]) ss.

(** Mounted with period 10, then rendered with period 5. *)
Definition stopped_world : World :=
  Eval vm_compute in
    world_of (play (mkProps false 10) [Rerender (mkProps false 5)]).

(** Mounted with period 10, the first tick started the task, then paused. *)
Definition paused_busy_world : World :=
  Eval vm_compute in
    world_of (play (mkProps false 10) [Elapse 10; Rerender (mkProps true 10)]).

(** Mounted with period 10, not paused; a tick starts the task and a second
    tick is delivered before React has rendered what the trigger effect
    queued. *)
Definition stuck_world : World :=
  Eval vm_compute in world_of (play (mkProps false 10) [TickRace 1]).

(** * Lemmas *)

(** Reading a field of an updated world. *)
Ltac fields :=
  cbn [props guard refs memo mounted renders runtime calls
       with_props with_guard with_refs with_memo with_mounted with_renders
       with_runtime with_calls] in *.

(** ** The period of a timer *)

Lemma timer_period_pos (t : Z) : 1 <= timer_period t.
Proof.
  unfold timer_period.
  destruct (Z.leb_spec 1 t); simpl; [|lia].
  destruct (Z.leb t TIMEOUT_MAX); lia.
Qed.

Lemma timer_period_id (t : Z) :
  1 <= t <= TIMEOUT_MAX -> timer_period t = t.
Proof.
  intros [H1 H2]. unfold timer_period.
  apply Z.leb_le in H1, H2. rewrite H1, H2. reflexivity.
Qed.

(** ** Equality tests decide equality *)

Lemma opt_bool_eqb_eq (a b : option bool) : opt_bool_eqb a b = true <-> a = b.
Proof.
  destruct a as [[|]|], b as [[|]|]; simpl; split; intro H;
    try reflexivity; try discriminate.
Qed.

Lemma guard_eqb_eq (a b : Guard) : guard_eqb a b = true <-> a = b.
Proof.
  destruct a as [ta ra], b as [tb rb]; unfold guard_eqb; simpl.
  rewrite andb_true_iff, opt_bool_eqb_eq, Bool.eqb_true_iff.
  split; [intros [-> ->]; reflexivity | intro H; inversion H; auto].
Qed.

Lemma guard_eqb_refl (g : Guard) : guard_eqb g g = true.
Proof. apply guard_eqb_eq; reflexivity. Qed.

Lemma pair_eqb_refl (p : bool * bool) : pair_eqb p p = true.
Proof. destruct p as [[|] [|]]; reflexivity. Qed.

(** ** One render *)

Lemma render_props (w : World) : props (setSafeInterval w) = props w.
Proof. reflexivity. Qed.

Lemma render_mounted (w : World) : mounted (setSafeInterval w) = mounted w.
Proof. reflexivity. Qed.

Lemma render_memo (w : World) :
  memo (setSafeInterval w) =
    Some (mkDeps (intervalTrigger (guard w), paused (props w))
                 (savedCallback (refs w)) (timeout (props w))).
Proof. reflexivity. Qed.

Lemma render_react (w : World) (d : Deps) :
  memo w = Some d ->
  guard (setSafeInterval w) = fst (react (run_trigger w) (paused (props w)) (guard w)) /\
  calls (setSafeInterval w) =
    mkCalls (onTicks (calls w))
            (bump (snd (react (run_trigger w) (paused (props w)) (guard w)))
                  (invocations (calls w)))
            (bump (snd (react (run_trigger w) (paused (props w)) (guard w)))
                  (inflight (calls w))).
Proof.
  intro H. unfold setSafeInterval. cbn [guard calls].
  unfold _safeIntervalTrigger, is_first. rewrite H.
  destruct (run_trigger w), (guard w) as [[|] [[|]|]], (paused (props w)),
    (calls w) as [ot inv inf]; split; reflexivity.
Qed.

(** When the timeout is the remembered one the timer effect is skipped. *)
Lemma render_timer_kept (w : World) :
  run_interval w = false ->
  runtime (setSafeInterval w) = runtime w /\
  timeoutRef (refs (setSafeInterval w)) = timeoutRef (refs w) /\
  unmountedRef (refs (setSafeInterval w)) = unmountedRef (refs w) /\
  (savedCallback (refs w) <> None -> savedCallback (refs (setSafeInterval w)) <> None).
Proof.
  intro H. unfold setSafeInterval, _setSafeInterval. cbn [runtime refs].
  rewrite H. simpl.
  destruct (run_saved w); simpl; repeat split; auto; discriminate.
Qed.

(** When the timeout changed on a later render, the cleanup runs and then
    the body. *)
Lemma render_timer_changed (w : World) (d : Deps) :
  memo w = Some d ->
  run_interval w = true ->
  let t := interval_effect (timeout (props w))
             (interval_cleanup (refs w, runtime w)) in
  runtime (setSafeInterval w) = snd t /\
  timeoutRef (refs (setSafeInterval w)) = timeoutRef (fst t) /\
  unmountedRef (refs (setSafeInterval w)) = unmountedRef (fst t) /\
  (savedCallback (refs w) <> None -> savedCallback (refs (setSafeInterval w)) <> None).
Proof.
  intros Hm H. unfold setSafeInterval, _setSafeInterval, is_first.
  cbn [runtime refs]. rewrite H, Hm. simpl.
  unfold interval_effect, interval_cleanup. simpl.
  destruct (timeoutRef (refs w)); destruct (run_saved w); simpl;
    repeat split; auto; discriminate.
Qed.

Lemma react_changes (stale pa : bool) (g : Guard) :
  fst (react stale pa g) <> g ->
  intervalTrigger g = true /\ intervalTrigger (fst (react stale pa g)) = false.
Proof.
  unfold react. destruct g as [[|] [[|]|]], stale, pa; simpl; intro H;
    try (exfalso; apply H; reflexivity); split; reflexivity.
Qed.

Lemma react_idle (stale pa : bool) (g : Guard) :
  intervalTrigger g = false -> react stale pa g = (g, false).
Proof.
  unfold react. intros ->. rewrite andb_false_r. reflexivity.
Qed.

(** ** A render cascade settles within two renders *)

Lemma flush_S (fuel : nat) (w : World) :
  flush (S fuel) w =
    if guard_eqb (guard (setSafeInterval w)) (guard w) then Done (setSafeInterval w)
    else flush fuel (setSafeInterval w).
Proof. reflexivity. Qed.

Lemma render_synced (w : World) :
  guard (setSafeInterval w) = guard w -> synced (setSafeInterval w).
Proof.
  intro Hg. eexists. split; [apply render_memo|].
  cbn [dep_trigger dep_timeout]. rewrite Hg. split; reflexivity.
Qed.

Lemma run_interval_rendered (w : World) : run_interval (setSafeInterval w) = false.
Proof.
  unfold run_interval. rewrite render_memo. simpl.
  rewrite Z.eqb_refl. reflexivity.
Qed.

Lemma flush_rendered (k : nat) (w : World) (d : Deps) :
  memo w = Some d ->
  exists w',
    flush (S (S k)) w = Done w' /\
    synced w' /\
    props w' = props w /\
    mounted w' = mounted w /\
    guard w' = fst (react (run_trigger w) (paused (props w)) (guard w)) /\
    calls w' =
      mkCalls (onTicks (calls w))
              (bump (snd (react (run_trigger w) (paused (props w)) (guard w)))
                    (invocations (calls w)))
              (bump (snd (react (run_trigger w) (paused (props w)) (guard w)))
                    (inflight (calls w))) /\
    runtime w' = runtime (setSafeInterval w) /\
    timeoutRef (refs w') = timeoutRef (refs (setSafeInterval w)) /\
    unmountedRef (refs w') = unmountedRef (refs (setSafeInterval w)) /\
    (savedCallback (refs (setSafeInterval w)) <> None -> savedCallback (refs w') <> None).
Proof.
  intro Hm.
  destruct (render_react w d Hm) as [Hg Hc].
  rewrite flush_S.
  destruct (guard_eqb (guard (setSafeInterval w)) (guard w)) eqn:E.
  - apply guard_eqb_eq in E.
    exists (setSafeInterval w). repeat split; auto using render_synced.
  - assert (Hne : guard (setSafeInterval w) <> guard w).
    { intro H. apply guard_eqb_eq in H. congruence. }
    rewrite Hg in Hne. apply react_changes in Hne. destruct Hne as [_ Hoff].
    rewrite <- Hg in Hoff.
    destruct (render_react (setSafeInterval w) _ (render_memo w)) as [Hg2 Hc2].
    rewrite (react_idle _ _ _ Hoff) in Hg2, Hc2. cbn [fst snd bump] in Hg2, Hc2.
    destruct (render_timer_kept (setSafeInterval w) (run_interval_rendered w))
      as (Hrt & Htr & Hum & Hsc).
    rewrite flush_S. rewrite Hg2, guard_eqb_refl.
    exists (setSafeInterval (setSafeInterval w)). split; [reflexivity|].
    split; [apply render_synced; exact Hg2|].
    repeat split; auto.
    + congruence.
    + rewrite Hc2, Hc. reflexivity.
Qed.

(** A setter called between events. *)
Lemma dispatch_spec (g : Guard) (w : World) :
  synced w ->
  let stale := negb (Bool.eqb (intervalTrigger (guard w)) (intervalTrigger g)) in
  let r := react stale (paused (props w)) g in
  exists w',
    dispatch g w = Done w' /\
    synced w' /\
    props w' = props w /\
    mounted w' = mounted w /\
    runtime w' = runtime w /\
    timeoutRef (refs w') = timeoutRef (refs w) /\
    unmountedRef (refs w') = unmountedRef (refs w) /\
    (savedCallback (refs w) <> None -> savedCallback (refs w') <> None) /\
    guard w' = (if mounted w then fst r else guard w) /\
    calls w' =
      (if mounted w
       then mkCalls (onTicks (calls w))
                    (bump (snd r) (invocations (calls w)))
                    (bump (snd r) (inflight (calls w)))
       else calls w).
Proof.
  intros Hs stale r. unfold dispatch.
  destruct (mounted w) eqn:Hmo; simpl.
  2:{ exists w. rewrite Hmo. repeat split; auto. }
  destruct (guard_eqb g (guard w)) eqn:E.
  - apply guard_eqb_eq in E. exists (bailout w).
    assert (Hr : r = (g, false)).
    { unfold r, stale, react. rewrite E, Bool.eqb_reflx. reflexivity. }
    rewrite Hr. simpl. split; [reflexivity|].
    split; [eexists; split; [reflexivity|]; split; reflexivity|].
    destruct (calls w); repeat split; auto.
  - destruct Hs as (d & Hm & Ht & Hto).
    destruct (flush_rendered 48 (with_guard g w) d Hm)
      as (w' & Hf & Hs' & Hp & Hmo' & Hg & Hc & Hrt & Htr & Hum & Hsc).
    assert (Hri : run_interval (with_guard g w) = false).
    { unfold run_interval. simpl. rewrite Hm, Hto, Z.eqb_refl. reflexivity. }
    destruct (render_timer_kept _ Hri) as (Hrt2 & Htr2 & Hum2 & Hsc2).
    assert (Hst : run_trigger (with_guard g w) = stale).
    { unfold run_trigger, stale, pair_eqb. simpl. rewrite Hm, Ht. simpl.
      rewrite Bool.eqb_reflx, andb_true_r. reflexivity. }
    rewrite Hst in Hg, Hc. fields.
    exists w'. split; [exact Hf|].
    repeat split; auto; congruence.
Qed.

Lemma tick_dropped (w : World) :
  unmountedRef (refs w) = true -> interval_callback w = Done w.
Proof. unfold interval_callback. intros ->. reflexivity. Qed.

Lemma tick_delivered (w : World) :
  Inv w ->
  unmountedRef (refs w) = false ->
  exists w',
    interval_callback w = Done w' /\
    Inv w' /\
    props w' = props w /\
    mounted w' = mounted w /\
    runtime w' = runtime w /\
    timeoutRef (refs w') = timeoutRef (refs w) /\
    unmountedRef (refs w') = false /\
    onTicks (calls w') = clock (runtime w) :: onTicks (calls w) /\
    guard w' = fst (on_tick (paused (props w)) (guard w)) /\
    invocations (calls w') =
      bump (snd (on_tick (paused (props w)) (guard w))) (invocations (calls w)) /\
    inflight (calls w') =
      bump (snd (on_tick (paused (props w)) (guard w))) (inflight (calls w)).
Proof.
  intros I Hum. unfold interval_callback. rewrite Hum. simpl.
  destruct (savedCallback (refs w)) as [n|] eqn:Hsc.
  2:{ exfalso. apply (inv_saved w I). exact Hsc. }
  unfold setIntervalTrigger.
  set (w0 := with_calls _ w).
  assert (Hmo : mounted w = true).
  { destruct (mounted w) eqn:E; auto.
    rewrite (inv_gone w I E) in Hum. discriminate. }
  destruct (dispatch_spec (mkGuard true (ready (guard w0))) w0 (inv_synced w I))
    as (w' & Hd & Hs & Hp & Hmo' & Hrt & Htr & Hum' & Hsc' & Hg & Hc).
  exists w'. split; [exact Hd|].
  subst w0. simpl in *. rewrite Hmo in *.
  assert (Hsaved : savedCallback (refs w') <> None).
  { apply Hsc'. rewrite Hsc. discriminate. }
  assert (Ht' : timer_ok w').
  { pose proof (inv_timer w I) as It. unfold timer_ok in *.
    rewrite Hum', Hrt, Htr, Hp. exact It. }
  destruct I as [_ Ir Ii Ib Iv _ Ih _ Ig].
  unfold on_tick.
  destruct (guard w) as [tr rd]; simpl in *.
  destruct tr, rd as [[|]|], (paused (props w)) eqn:Epa;
    try (exfalso; apply Ir; reflexivity);
    try specialize (Ii eq_refl); try specialize (Iv eq_refl eq_refl);
    cbn in Hg, Hc |- *;
    (split; [constructor|]); rewrite ?Hg, ?Hc, ?Hp, ?Epa, ?Hmo', ?Hum', ?Htr;
    cbn; repeat split; intros; auto; try congruence; try lia.
Qed.

(** ** Mounting *)

Lemma render_fresh (p : Props) :
  setSafeInterval (fresh p) =
    mkWorld p (mkGuard false (Some true)) (mkRefs (Some 1%nat) (Some 1%nat) false)
            (Some (mkDeps (false, paused p) None (timeout p))) true 1%nat
            (mkRuntime 0 [mkInterval 1 (timer_period (timeout p)) (0 + timer_period (timeout p))]
                       2%nat)
            (mkCalls [] 0%nat 0%nat).
Proof. destruct p as [[|] t]; reflexivity. Qed.

Lemma mount_spec (p : Props) :
  exists w,
    mount p = Done w /\
    Inv w /\
    props w = p /\
    mounted w = true /\
    guard w = mkGuard false (Some true) /\
    calls w = mkCalls [] 0%nat 0%nat /\
    runtime w =
      mkRuntime 0 [mkInterval 1 (timer_period (timeout p)) (timer_period (timeout p))] 2%nat /\
    timeoutRef (refs w) = Some 1%nat /\
    unmountedRef (refs w) = false.
Proof.
  unfold mount. change nested_update_limit with (S (S (S 47))).
  rewrite flush_S, render_fresh. cbn [guard fresh guard_eqb intervalTrigger ready
                                      Bool.eqb opt_bool_eqb andb].
  match goal with |- context [flush _ ?w1] => set (w1' := w1) end.
  destruct (flush_rendered 47 w1' _ eq_refl)
    as (w & Hf & Hs & Hp & Hmo & Hg & Hc & Hrt & Htr & Hum & Hsc).
  assert (Hri : run_interval w1' = false).
  { unfold run_interval, w1'. simpl. rewrite Z.eqb_refl. reflexivity. }
  destruct (render_timer_kept _ Hri) as (Hrt2 & Htr2 & Hum2 & Hsc2).
  rewrite react_idle in Hg, Hc by reflexivity.
  subst w1'. fields. cbn [fst snd bump onTicks invocations inflight] in Hg, Hc.
  exists w. split; [exact Hf|].
  assert (Hrt' : runtime w =
    mkRuntime 0 [mkInterval 1 (timer_period (timeout p)) (timer_period (timeout p))] 2%nat).
  { rewrite Hrt, Hrt2. reflexivity. }
  assert (Htr' : timeoutRef (refs w) = Some 1%nat)
    by (rewrite Htr, Htr2; reflexivity).
  assert (Hum' : unmountedRef (refs w) = false)
    by (rewrite Hum, Hum2; reflexivity).
  split; [|repeat split; auto].
  constructor; rewrite ?Hg, ?Hc, ?Hp, ?Hmo, ?Htr', ?Hum'; simpl; auto;
    try discriminate; try congruence.
  - apply Hsc, Hsc2. discriminate.
  - unfold timer_ok. rewrite Hum', Hrt', Htr', Hp. simpl.
    exists 1%nat, (timer_period (timeout p)). repeat split.
    pose proof (timer_period_pos (timeout p)). lia.
Qed.

(** ** Settlement of the task's promise *)

Lemma settle_spec (s : Settlement) (w : World) :
  Inv w ->
  exists w',
    settle s w = Done w' /\
    Inv w' /\
    props w' = props w /\
    mounted w' = mounted w /\
    runtime w' = runtime w /\
    unmountedRef (refs w') = unmountedRef (refs w) /\
    onTicks (calls w') = onTicks (calls w) /\
    guard w' = (if mounted w
                then mkGuard (intervalTrigger (guard w)) (Some true)
                else guard w) /\
    invocations (calls w') = invocations (calls w) /\
    inflight (calls w') = pred (inflight (calls w)).
Proof.
  intro I. unfold settle.
  set (w0 := with_calls _ w).
  assert (E : on_settled s w0 = setReady true w0) by (destruct s; reflexivity).
  rewrite E. unfold setReady.
  destruct (dispatch_spec (mkGuard (intervalTrigger (guard w0)) (Some true)) w0
                          (inv_synced w I))
    as (w' & Hd & Hs & Hp & Hmo & Hrt & Htr & Hum & Hsc & Hg & Hc).
  exists w'. split; [exact Hd|].
  subst w0. fields. cbn [intervalTrigger] in Hg, Hc.
  rewrite Bool.eqb_reflx in Hg, Hc. unfold react in Hg, Hc.
  cbn [negb andb fst snd bump onTicks invocations inflight] in Hg, Hc.
  assert (Ht' : timer_ok w').
  { pose proof (inv_timer w I) as It. unfold timer_ok in *.
    rewrite Hum, Hrt, Htr, Hp. exact It. }
  assert (Hsaved : savedCallback (refs w') <> None)
    by (apply Hsc, (inv_saved w I)).
  assert (Hc' : calls w' = mkCalls (onTicks (calls w)) (invocations (calls w))
                                   (pred (inflight (calls w))))
    by (rewrite Hc; destruct (mounted w); reflexivity).
  clear Hc.
  destruct I as [_ Ir Ii Ib Iv _ Ih _ Ig].
  split; [|rewrite Hc'; repeat split; auto].
  constructor; rewrite ?Hg, ?Hc', ?Hp, ?Hmo, ?Hum, ?Htr; auto;
    destruct (mounted w); simpl; intros; auto; try discriminate; try lia.
Qed.

(** ** Tearing the timer down *)

Lemma clear_only (id : nat) (p due : Z) :
  filter (fun iv => negb (Nat.eqb (iv_id iv) id)) [mkInterval id p due] = [].
Proof. simpl. rewrite Nat.eqb_refl. reflexivity. Qed.

Lemma cleanup_spec (w : World) :
  Inv w ->
  unmountedRef (fst (interval_cleanup (refs w, runtime w))) = true /\
  timeoutRef (fst (interval_cleanup (refs w, runtime w))) = timeoutRef (refs w) /\
  savedCallback (fst (interval_cleanup (refs w, runtime w))) = savedCallback (refs w) /\
  intervals (snd (interval_cleanup (refs w, runtime w))) = [] /\
  clock (snd (interval_cleanup (refs w, runtime w))) = clock (runtime w) /\
  next_id (snd (interval_cleanup (refs w, runtime w))) = next_id (runtime w).
Proof.
  intro I. pose proof (inv_timer w I) as It. pose proof (inv_handle w I) as Ih.
  unfold timer_ok in It. unfold interval_cleanup. simpl.
  destruct (timeoutRef (refs w)) as [id|]; [|congruence]. simpl.
  repeat split.
  destruct (unmountedRef (refs w)).
  - rewrite It. reflexivity.
  - destruct It as (id' & due & Hid & Hiv & _). inversion Hid; subst id'.
    rewrite Hiv. apply clear_only.
Qed.

Lemma unmount_spec (w : World) :
  Inv w ->
  mounted w = true ->
  exists w',
    unmount w = Done w' /\
    Inv w' /\
    props w' = props w /\
    mounted w' = false /\
    guard w' = guard w /\
    calls w' = calls w /\
    unmountedRef (refs w') = true /\
    intervals (runtime w') = [].
Proof.
  intros I Hmo. unfold unmount. rewrite Hmo.
  destruct (cleanup_spec w I) as (Hum & Htr & Hsc & Hiv & Hck & Hnx).
  eexists. split; [reflexivity|]. unfold stop. fields.
  split; [|repeat split; auto].
  destruct I as [Is Ir Ii Ib Iv Isc Ih _ Ig].
  constructor; fields; auto; try congruence.
  unfold timer_ok. fields. rewrite Hum. exact Hiv.
Qed.

(** ** Rendering again with new arguments *)

Lemma rerender_spec (p : Props) (w : World) :
  Inv w ->
  mounted w = true ->
  let r := react (negb (Bool.eqb (paused (props w)) (paused p))) (paused p) (guard w) in
  exists w',
    rerender p w = Done w' /\
    Inv w' /\
    props w' = p /\
    mounted w' = true /\
    onTicks (calls w') = onTicks (calls w) /\
    guard w' = fst r /\
    invocations (calls w') = bump (snd r) (invocations (calls w)) /\
    inflight (calls w') = bump (snd r) (inflight (calls w)) /\
    clock (runtime w') = clock (runtime w) /\
    next_id (runtime w') = next_id (runtime w) /\
    (if Z.eqb (timeout (props w)) (timeout p)
     then runtime w' = runtime w /\
          unmountedRef (refs w') = unmountedRef (refs w)
     else unmountedRef (refs w') = true /\ intervals (runtime w') = []).
Proof.
  intros I Hmo r. unfold rerender. rewrite Hmo.
  change nested_update_limit with (S (S 48)).
  destruct (inv_synced w I) as (d & Hm & Ht & Hto).
  destruct (flush_rendered 48 (with_props p w) d Hm)
    as (w' & Hf & Hs & Hp & Hmo' & Hg & Hc & Hrt & Htr & Hum & Hsc).
  assert (Hst : run_trigger (with_props p w) =
                negb (Bool.eqb (paused (props w)) (paused p))).
  { unfold run_trigger, pair_eqb. fields. rewrite Hm, Ht. simpl.
    rewrite Bool.eqb_reflx. reflexivity. }
  rewrite Hst in Hg, Hc. fields. fold r in Hg, Hc.
  exists w'. split; [exact Hf|].
  assert (Hkeep : savedCallback (refs (setSafeInterval (with_props p w))) <> None /\
            timeoutRef (refs (setSafeInterval (with_props p w))) = timeoutRef (refs w) /\
            clock (runtime (setSafeInterval (with_props p w))) = clock (runtime w) /\
            next_id (runtime (setSafeInterval (with_props p w))) = next_id (runtime w) /\
            if Z.eqb (timeout (props w)) (timeout p)
            then runtime (setSafeInterval (with_props p w)) = runtime w /\
                 unmountedRef (refs (setSafeInterval (with_props p w))) = unmountedRef (refs w)
            else unmountedRef (refs (setSafeInterval (with_props p w))) = true /\
                 intervals (runtime (setSafeInterval (with_props p w))) = []).
  { destruct (Z.eqb (timeout (props w)) (timeout p)) eqn:Et.
    - assert (Hri : run_interval (with_props p w) = false).
      { unfold run_interval. fields. rewrite Hm, Hto, Et. reflexivity. }
      destruct (render_timer_kept _ Hri) as (H1 & H2 & H3 & H4). fields.
      repeat split; auto; try congruence.
      apply H4, (inv_saved w I).
    - assert (Hri : run_interval (with_props p w) = true).
      { unfold run_interval. fields. rewrite Hm, Hto, Et. reflexivity. }
      destruct (render_timer_changed (with_props p w) d Hm Hri)
        as (H1a & H1b & H1c & H2).
      fields.
      destruct (cleanup_spec w I) as (Cum & Ctr & Csc & Civ & Cck & Cnx).
      pose proof (inv_handle w I) as Ih.
      unfold interval_effect in H1a, H1b, H1c. rewrite Ctr in H1a, H1b, H1c.
      destruct (timeoutRef (refs w)) as [id|] eqn:Eid; [|congruence].
      rewrite H1a, H1b, H1c. repeat split; auto.
      apply H2, (inv_saved w I). }
  destruct Hkeep as (Ksc & Ktr & Kck & Knx & Kif).
  rewrite <- Hrt, <- Hum, <- Htr in *. clear Hrt Hum Htr.
  specialize (Hsc Ksc).
  assert (Ht' : timer_ok w').
  { pose proof (inv_timer w I) as It. unfold timer_ok in *.
    destruct (Z.eqb (timeout (props w)) (timeout p)) eqn:Et.
    - apply Z.eqb_eq in Et. destruct Kif as [K1 K2].
      rewrite K1, K2, Ktr, Hp, <- Et. exact It.
    - destruct Kif as [K1 K2]. rewrite K1. exact K2. }
  assert (Hgone : mounted w' = false -> unmountedRef (refs w') = true)
    by (rewrite Hmo', Hmo; discriminate).
  assert (Hh : timeoutRef (refs w') <> None)
    by (rewrite Ktr; apply (inv_handle w I)).
  destruct I as [_ Ir Ii Ib Iv _ _ _ _].
  rewrite Hc. cbn [onTicks invocations inflight].
  split; [|repeat split; auto; congruence].
  constructor; auto; rewrite ?Hg, ?Hc, ?Hp, ?Hmo', ?Hmo; subst r; unfold react;
    destruct (guard w) as [tr rd]; simpl in *;
    destruct tr, rd as [[|]|], (paused (props w)), (paused p);
    try (exfalso; apply Ir; reflexivity);
    try specialize (Ii eq_refl); try specialize (Iv Hmo eq_refl);
    cbn; intros; auto; try congruence; try lia.
Qed.

(** ** Time *)

Lemma Inv_runtime (rt : Runtime) (w : World) :
  Inv w -> timer_ok (with_runtime rt w) -> Inv (with_runtime rt w).
Proof.
  intros [Is Ir Ii Ib Iv Isc Ih _ Ig] Ht. constructor; auto.
Qed.

Lemma on_tick_busy (pa : bool) (g : Guard) :
  ready g = Some false -> ready (fst (on_tick pa g)) = Some false.
Proof.
  unfold on_tick, react. destruct g as [[|] rd]; simpl; intros ->;
    destruct pa; reflexivity.
Qed.

Lemma advance_dead (w : World) :
  Inv w ->
  unmountedRef (refs w) = true ->
  advance_ms w =
    Done (with_runtime (mkRuntime (clock (runtime w) + 1) []
                                  (next_id (runtime w))) w).
Proof.
  intros I Hum. pose proof (inv_timer w I) as It.
  unfold timer_ok in It. rewrite Hum in It.
  unfold advance_ms. fields. rewrite It. reflexivity.
Qed.

Lemma advance_live (w : World) :
  Inv w ->
  unmountedRef (refs w) = false ->
  exists w',
    advance_ms w = Done w' /\
    Inv w' /\
    props w' = props w /\
    mounted w' = mounted w /\
    unmountedRef (refs w') = false /\
    clock (runtime w') = clock (runtime w) + 1 /\
    (ready (guard w) = Some false -> ready (guard w') = Some false) /\
    if Z.eqb (the_due w) (clock (runtime w) + 1)
    then onTicks (calls w') = (clock (runtime w) + 1) :: onTicks (calls w) /\
         the_due w' = the_due w + timer_period (timeout (props w))
    else calls w' = calls w /\ guard w' = guard w /\ the_due w' = the_due w.
Proof.
  intros I Hum. pose proof (inv_timer w I) as It.
  unfold timer_ok in It. rewrite Hum in It.
  destruct It as (id & due & Hid & Hiv & Hlt).
  unfold advance_ms, the_due, due_ids. fields. rewrite Hiv.
  cbn [filter map iv_due clock intervals].
  destruct (Z.leb_spec due (clock (runtime w) + 1)) as [Hle|Hgt].
  - assert (Hdue : due = clock (runtime w) + 1) by lia.
    subst due. rewrite Z.eqb_refl.
    cbn [map iv_id fire_all]. unfold fire, reschedule. fields.
    cbn [intervals existsb map iv_id iv_due iv_period clock next_id].
    rewrite Nat.eqb_refl. cbn [orb bind].
    match goal with |- context [interval_callback ?x] => set (w1 := x) end.
    assert (I1 : Inv w1).
    { pose proof I as [Is Ir Ii Ib Iv Isc Ih _ Ig].
      constructor; auto.
      unfold timer_ok, w1. fields. rewrite Hum.
      eexists id, _. simpl. repeat split; auto.
      pose proof (timer_period_pos (timeout (props w))). lia. }
    destruct (tick_delivered w1 I1 Hum)
      as (w' & Hcb & I' & Hp & Hmo & Hrt & Htr & Hum' & Hot & Hg & _).
    exists w'. rewrite Hcb. subst w1. fields.
    assert (E : bind (Done w') (fun w2 => Done w2) = Done w') by reflexivity.
    rewrite E, Hrt, Hot. simpl.
    split; [reflexivity|]. split; [exact I'|]. repeat split; auto.
    intro Hb. rewrite Hg. apply on_tick_busy, Hb.
  - assert (Hne : (due =? clock (runtime w) + 1) = false)
      by (apply Z.eqb_neq; lia).
    rewrite Hne. cbn [map fire_all].
    eexists. split; [reflexivity|]. fields.
    split; [|repeat split; auto].
    apply Inv_runtime; [exact I|]. unfold timer_ok. fields. rewrite Hum.
    exists id, due. simpl. repeat split; auto.
Qed.

Lemma advance_spec (w : World) :
  Inv w ->
  exists w',
    advance_ms w = Done w' /\
    Inv w' /\
    mounted w' = mounted w /\
    unmountedRef (refs w') = unmountedRef (refs w) /\
    (ready (guard w) = Some false -> ready (guard w') = Some false) /\
    (unmountedRef (refs w) = true -> guard w' = guard w /\ calls w' = calls w).
Proof.
  intro I. destruct (unmountedRef (refs w)) eqn:Hum.
  - rewrite (advance_dead w I Hum). eexists. split; [reflexivity|].
    fields. split; [|repeat split; auto].
    apply Inv_runtime; [exact I|]. unfold timer_ok. fields. rewrite Hum.
    reflexivity.
  - destruct (advance_live w I Hum)
      as (w' & Ha & I' & _ & Hmo & Hum' & _ & Hb & _).
    exists w'. split; [exact Ha|]. split; [exact I'|].
    repeat split; auto; discriminate.
Qed.

Lemma elapse_spec (ms : nat) (w : World) :
  Inv w ->
  exists w',
    elapse ms w = Done w' /\
    Inv w' /\
    mounted w' = mounted w /\
    unmountedRef (refs w') = unmountedRef (refs w) /\
    (ready (guard w) = Some false -> ready (guard w') = Some false) /\
    (unmountedRef (refs w) = true -> guard w' = guard w /\ calls w' = calls w).
Proof.
  revert w. induction ms as [|ms IH]; intros w I.
  - exists w. split; [reflexivity|]. split; [exact I|]. repeat split; auto.
  - destruct (advance_spec w I) as (w1 & Ha & I1 & Hmo1 & Hum1 & Hb1 & Hd1).
    destruct (IH w1 I1) as (w' & He & I' & Hmo & Hum & Hb & Hd).
    exists w'. simpl. rewrite Ha. simpl. split; [exact He|].
    split; [exact I'|].
    split; [congruence|]. split; [congruence|]. split; [auto|].
    intro H. destruct (Hd1 H) as [Hg1 Hc1].
    rewrite H in Hum1. destruct (Hd Hum1) as [Hg2 Hc2].
    split; congruence.
Qed.

(** ** Callbacks while a render is pending *)

Lemma repeat_shift {A : Type} (a : A) (k : nat) (l : list A) :
  repeat a k ++ a :: l = a :: repeat a k ++ l.
Proof.
  induction k as [|k IH]; simpl; [reflexivity|]. rewrite IH. reflexivity.
Qed.

Lemma late_callbacks_spec (k : nat) (v : World) :
  savedCallback (refs v) <> None ->
  let late := negb (unmountedRef (refs v)) && negb (Nat.eqb k 0) in
  exists v',
    late_callbacks k v = Done v' /\
    memo v' = memo v /\
    props v' = props v /\
    refs v' = refs v /\
    runtime v' = runtime v /\
    mounted v' = mounted v /\
    ready (guard v') = ready (guard v) /\
    invocations (calls v') = invocations (calls v) /\
    inflight (calls v') = inflight (calls v) /\
    intervalTrigger (guard v') =
      (if late && mounted v then true else intervalTrigger (guard v)) /\
    onTicks (calls v') =
      (if late then repeat (clock (runtime v)) k ++ onTicks (calls v)
       else onTicks (calls v)).
Proof.
  revert v. induction k as [|k IH]; intros v Hsc late.
  - exists v. subst late. simpl. rewrite andb_false_r. simpl.
    repeat split; reflexivity.
  - cbn [late_callbacks]. unfold late_callback.
    destruct (unmountedRef (refs v)) eqn:Hum; cbn [negb].
    + cbn [bind]. destruct (IH v Hsc) as (v' & H & R).
      rewrite Hum in R. simpl in R. exists v'. split; [exact H|].
      subst late. simpl. exact R.
    + destruct (savedCallback (refs v)) as [n|] eqn:Es; [|congruence].
      cbn [bind].
      match goal with |- context [late_callbacks k ?x] => set (v1 := x) end.
      assert (Hsc1 : savedCallback (refs v1) <> None).
      { unfold v1. destruct (mounted v); simpl; rewrite Es; discriminate. }
      destruct (IH v1 Hsc1) as (v' & H & Hm & Hp & Hr & Hrt & Hmo & Hrd & Hiv & Hif & Htr & Hot).
      exists v'. split; [exact H|].
      assert (F : memo v1 = memo v /\ props v1 = props v /\ refs v1 = refs v /\
                  runtime v1 = runtime v /\ mounted v1 = mounted v /\
                  ready (guard v1) = ready (guard v) /\
                  invocations (calls v1) = invocations (calls v) /\
                  inflight (calls v1) = inflight (calls v) /\
                  intervalTrigger (guard v1) =
                    (if mounted v then true else intervalTrigger (guard v)) /\
                  onTicks (calls v1) = clock (runtime v) :: onTicks (calls v)).
      { unfold v1. destruct (mounted v) eqn:Em; simpl; repeat split;
          try reflexivity; assumption. }
      destruct F as (F1 & F2 & F3 & F4 & F5 & F6 & F7 & F8 & F9 & F10).
      rewrite F3, F4, F5, F9, F10 in *. rewrite Hum in *.
      subst late. cbn [negb andb Nat.eqb] in *.
      repeat split; try congruence.
      * rewrite Htr. destruct (Nat.eqb k 0), (mounted v); reflexivity.
      * rewrite Hot. destruct (Nat.eqb k 0) eqn:Ek; simpl.
        -- apply Nat.eqb_eq in Ek. subst k. reflexivity.
        -- apply repeat_shift.
Qed.

Lemma flush_racing_rendered (k : nat) (w : World) (d : Deps) :
  memo w = Some d ->
  savedCallback (refs (setSafeInterval w)) <> None ->
  run_interval (setSafeInterval w) = false ->
  mounted w = true ->
  let r := react (run_trigger w) (paused (props w)) (guard w) in
  let w1 := setSafeInterval w in
  let late := negb (guard_eqb (fst r) (guard w)) &&
              negb (unmountedRef (refs w1)) && negb (Nat.eqb k 0) in
  exists w',
    flush_racing k w = Done w' /\
    synced w' /\
    props w' = props w /\
    mounted w' = mounted w /\
    runtime w' = runtime w1 /\
    timeoutRef (refs w') = timeoutRef (refs w1) /\
    unmountedRef (refs w') = unmountedRef (refs w1) /\
    savedCallback (refs w') <> None /\
    ready (guard w') = ready (fst r) /\
    intervalTrigger (guard w') =
      (if late then true else intervalTrigger (fst r)) /\
    invocations (calls w') = bump (snd r) (invocations (calls w)) /\
    inflight (calls w') = bump (snd r) (inflight (calls w)) /\
    onTicks (calls w') =
      (if late then repeat (clock (runtime w1)) k ++ onTicks (calls w)
       else onTicks (calls w)).
Proof.
  intros Hm Hsc Hri Hmo r w1 late.
  destruct (render_react w d Hm) as [Hg Hc]. fold r in Hg, Hc. fold w1 in Hg, Hc.
  unfold flush_racing. fold w1.
  destruct (guard_eqb (guard w1) (guard w)) eqn:E.
  - exists w1. apply guard_eqb_eq in E.
    assert (Hl : late = false).
    { unfold late. rewrite <- Hg, E, guard_eqb_refl. reflexivity. }
    rewrite Hl, Hc, <- Hg. simpl.
    split; [reflexivity|]. split; [apply render_synced; exact E|].
    repeat split; auto.
  - assert (Hne : guard w1 <> guard w).
    { intro H. apply guard_eqb_eq in H. congruence. }
    assert (Hl : negb (guard_eqb (fst r) (guard w)) = true)
      by (rewrite <- Hg, E; reflexivity).
    rewrite Hg in Hne. apply react_changes in Hne. destruct Hne as [Hon Hoff].
    fold r in Hoff. rewrite <- Hg in Hoff.
    destruct (late_callbacks_spec k w1 Hsc)
      as (w2 & Hl2 & Hm2 & Hp2 & Hr2 & Hrt2 & Hmo2 & Hrd2 & Hiv2 & Hif2 & Htr2 & Hot2).
    rewrite Hl2. cbn [bind].
    assert (Hmo1 : mounted w1 = true) by exact Hmo.
    rewrite Hmo1, andb_true_r, Hoff in Htr2.
    assert (Hlate : late = negb (unmountedRef (refs w1)) && negb (Nat.eqb k 0)).
    { unfold late. rewrite Hl. reflexivity. }
    rewrite <- Hlate in Htr2, Hot2.
    assert (Hm1 : memo w2 = Some (mkDeps (intervalTrigger (guard w), paused (props w))
                                         (savedCallback (refs w)) (timeout (props w))))
      by (rewrite Hm2; apply render_memo).
    destruct (flush_rendered 48 w2 _ Hm1)
      as (w' & Hf & Hs & Hp & Hmo' & Hg' & Hc' & Hrt & Htr & Hum & Hsc').
    assert (Hri2 : run_interval w2 = false).
    { unfold run_interval in *. rewrite Hm2, Hp2. exact Hri. }
    destruct (render_timer_kept w2 Hri2) as (K1 & K2 & K3 & K4).
    assert (Hstay : react (run_trigger w2) (paused (props w2)) (guard w2) =
                    (guard w2, false)).
    { destruct late eqn:El.
      - unfold react, run_trigger, pair_eqb. rewrite Hm1. cbn [dep_trigger fst snd].
        rewrite Htr2, Hon, Hp2. change (props w1) with (props w).
        rewrite !Bool.eqb_reflx. reflexivity.
      - apply react_idle. rewrite Htr2. reflexivity. }
    rewrite Hstay in Hg', Hc'. cbn [fst snd bump] in Hg', Hc'.
    exists w'. split; [exact Hf|]. split; [exact Hs|].
    change (props w1) with (props w) in Hp2.
    change (mounted w1) with (mounted w) in Hmo2.
    rewrite Hg', Hc', Hrt, Htr, Hum. cbn [onTicks invocations inflight].
    rewrite K1, K2, K3, Hr2, Hrt2, Hrd2, Hiv2, Hif2, Htr2, Hot2, Hc, Hg.
    cbn [onTicks invocations inflight].
    split; [congruence|]. split; [congruence|].
    repeat split; auto.
    + apply Hsc', K4. rewrite Hr2. exact Hsc.
    + rewrite <- Hg, Hoff. reflexivity.
Qed.

(** A tick, and [k] more while the render it caused is pending. *)
Lemma tick_race_spec (k : nat) (w : World) :
  Inv w ->
  unmountedRef (refs w) = false ->
  let late := negb (paused (props w)) && negb (intervalTrigger (guard w)) &&
              negb (Nat.eqb k 0) in
  exists w',
    tick_race k w = Done w' /\
    Inv w' /\
    props w' = props w /\
    mounted w' = mounted w /\
    runtime w' = runtime w /\
    timeoutRef (refs w') = timeoutRef (refs w) /\
    unmountedRef (refs w') = false /\
    ready (guard w') = ready (fst (on_tick (paused (props w)) (guard w))) /\
    intervalTrigger (guard w') =
      (if late then true
       else intervalTrigger (fst (on_tick (paused (props w)) (guard w)))) /\
    invocations (calls w') =
      bump (snd (on_tick (paused (props w)) (guard w))) (invocations (calls w)) /\
    inflight (calls w') =
      bump (snd (on_tick (paused (props w)) (guard w))) (inflight (calls w)) /\
    onTicks (calls w') =
      (if late
       then repeat (clock (runtime w)) k ++ clock (runtime w) :: onTicks (calls w)
       else clock (runtime w) :: onTicks (calls w)).
Proof.
  intros I Hum late. unfold tick_race. rewrite Hum. cbn [negb].
  destruct (savedCallback (refs w)) as [n|] eqn:Hsc.
  2:{ exfalso. apply (inv_saved w I). exact Hsc. }
  set (w0 := with_calls _ w).
  assert (Hmo : mounted w = true).
  { destruct (mounted w) eqn:E; auto.
    rewrite (inv_gone w I E) in Hum. discriminate. }
  assert (Hfacts : exists w',
    dispatch_racing k (mkGuard true (ready (guard w))) w0 = Done w' /\
    synced w' /\ props w' = props w /\ mounted w' = mounted w /\
    runtime w' = runtime w /\ timeoutRef (refs w') = timeoutRef (refs w) /\
    unmountedRef (refs w') = false /\ savedCallback (refs w') <> None /\
    ready (guard w') = ready (fst (on_tick (paused (props w)) (guard w))) /\
    intervalTrigger (guard w') =
      (if late then true
       else intervalTrigger (fst (on_tick (paused (props w)) (guard w)))) /\
    invocations (calls w') =
      bump (snd (on_tick (paused (props w)) (guard w))) (invocations (calls w)) /\
    inflight (calls w') =
      bump (snd (on_tick (paused (props w)) (guard w))) (inflight (calls w)) /\
    onTicks (calls w') =
      (if late
       then repeat (clock (runtime w)) k ++ clock (runtime w) :: onTicks (calls w)
       else clock (runtime w) :: onTicks (calls w))).
  { unfold dispatch_racing. change (mounted w0) with (mounted w). rewrite Hmo.
    cbn [negb]. change (guard w0) with (guard w).
    destruct (guard_eqb (mkGuard true (ready (guard w))) (guard w)) eqn:E.
    - apply guard_eqb_eq in E. exists (bailout w0).
      assert (Ht : intervalTrigger (guard w) = true) by (rewrite <- E; reflexivity).
      assert (Hl : late = false).
      { unfold late. rewrite Ht, andb_false_r. reflexivity. }
      assert (Ho : on_tick (paused (props w)) (guard w) = (guard w, false)).
      { unfold on_tick, react. rewrite Ht. simpl. rewrite E. reflexivity. }
      rewrite Hl, Ho. simpl. split; [reflexivity|].
      split; [eexists; split; [reflexivity|]; split; reflexivity|].
      repeat split; auto. rewrite Hsc. discriminate.
    - assert (Ht : intervalTrigger (guard w) = false).
      { destruct (guard w) as [[|] rd]; simpl in *; [|reflexivity].
        rewrite guard_eqb_refl in E. discriminate. }
      destruct (inv_synced w I) as (d & Hm & Hd & Hto).
      set (w00 := with_guard (mkGuard true (ready (guard w))) w0).
      assert (Hri0 : run_interval w00 = false).
      { unfold run_interval, w00, w0. simpl. rewrite Hm, Hto, Z.eqb_refl.
        reflexivity. }
      destruct (render_timer_kept w00 Hri0) as (K1 & K2 & K3 & K4).
      assert (Hst : run_trigger w00 = true).
      { unfold run_trigger, pair_eqb, w00, w0. simpl. rewrite Hm, Hd, Ht.
        reflexivity. }
      assert (Hsc0 : savedCallback (refs (setSafeInterval w00)) <> None).
      { apply K4. unfold w00, w0. simpl. rewrite Hsc. discriminate. }
      destruct (flush_racing_rendered k w00 d Hm Hsc0 (run_interval_rendered w00) Hmo)
        as (w' & Hf & Hs & Hp & Hmo' & Hrt & Htr & Hum' & Hsc' & Hrd & Htg & Hiv & Hif & Hot).
      rewrite Hst in *. rewrite K1, K2, K3 in *.
      unfold w00, w0 in Hp, Hmo', Hrt, Htr, Hum', Hrd, Htg, Hiv, Hif, Hot.
      cbn [props mounted runtime refs guard calls with_guard with_calls
           onTicks invocations inflight paused] in *.
      assert (Ho : on_tick (paused (props w)) (guard w) =
                   react true (paused (props w)) (mkGuard true (ready (guard w)))).
      { unfold on_tick. rewrite Ht. reflexivity. }
      rewrite Ho.
      assert (Hlate : negb (guard_eqb
                  (fst (react true (paused (props w)) (mkGuard true (ready (guard w)))))
                  (mkGuard true (ready (guard w)))) = negb (paused (props w))).
      { unfold react. destruct (paused (props w)), (ready (guard w)) as [[|]|];
          reflexivity. }
      rewrite Hlate, Hum in Htg, Hot. cbn [negb] in Htg, Hot.
      rewrite andb_true_r in Htg, Hot.
      unfold late. rewrite Ht. cbn [negb]. rewrite andb_true_r.
      exists w'. split; [exact Hf|]. split; [exact Hs|].
      repeat split; auto; congruence. }
  destruct Hfacts as (w' & Hd & Hs & Hp & Hmo' & Hrt & Htr & Hum' & Hsc' & Hrd & Htg & Hiv & Hif & Hot).
  exists w'. split; [exact Hd|].
  split; [|repeat split; auto].
  assert (Ht' : timer_ok w').
  { pose proof (inv_timer w I) as It. unfold timer_ok in *.
    rewrite Hum', Hrt, Htr, Hp. rewrite Hum in It. exact It. }
  destruct I as [_ Ir Ii Ib Iv _ Ih _ Ig].
  unfold on_tick, react in Hrd, Hiv, Hif.
  destruct (guard w) as [tr rd]; simpl in *.
  constructor; auto; rewrite ?Hrd, ?Hiv, ?Hif, ?Hmo', ?Hum', ?Htr; auto;
    destruct tr, rd as [[|]|], (paused (props w));
    try (exfalso; apply Ir; reflexivity);
    try specialize (Ii eq_refl); try specialize (Iv Hmo eq_refl);
    cbn; intros; auto; try congruence; try lia.
Qed.

(** What a render with new arguments does to the refs and the timers. *)
Lemma render_new_props (p : Props) (w : World) :
  Inv w ->
  let w1 := setSafeInterval (with_props p w) in
  savedCallback (refs w1) <> None /\
  timeoutRef (refs w1) = timeoutRef (refs w) /\
  clock (runtime w1) = clock (runtime w) /\
  next_id (runtime w1) = next_id (runtime w) /\
  if Z.eqb (timeout (props w)) (timeout p)
  then runtime w1 = runtime w /\ unmountedRef (refs w1) = unmountedRef (refs w)
  else unmountedRef (refs w1) = true /\ intervals (runtime w1) = [].
Proof.
  intros I w1. subst w1.
  destruct (inv_synced w I) as (d & Hm & Ht & Hto).
  destruct (Z.eqb (timeout (props w)) (timeout p)) eqn:Et.
  - assert (Hri : run_interval (with_props p w) = false).
    { unfold run_interval. fields. rewrite Hm, Hto, Et. reflexivity. }
    destruct (render_timer_kept _ Hri) as (H1 & H2 & H3 & H4). fields.
    repeat split; auto; try congruence.
    apply H4, (inv_saved w I).
  - assert (Hri : run_interval (with_props p w) = true).
    { unfold run_interval. fields. rewrite Hm, Hto, Et. reflexivity. }
    destruct (render_timer_changed (with_props p w) d Hm Hri)
      as (H1a & H1b & H1c & H2).
    fields.
    destruct (cleanup_spec w I) as (Cum & Ctr & Csc & Civ & Cck & Cnx).
    pose proof (inv_handle w I) as Ih.
    unfold interval_effect in H1a, H1b, H1c. rewrite Ctr in H1a, H1b, H1c.
    destruct (timeoutRef (refs w)) as [id|] eqn:Eid; [|congruence].
    rewrite H1a, H1b, H1c. repeat split; auto.
    apply H2, (inv_saved w I).
Qed.

(** A render by the owner, and [k] ticks while the render of what its
    effects queued is pending. *)
Lemma rerender_race_spec (k : nat) (p : Props) (w : World) :
  Inv w ->
  mounted w = true ->
  let r := react (negb (Bool.eqb (paused (props w)) (paused p))) (paused p) (guard w) in
  exists w',
    rerender_race k p w = Done w' /\
    Inv w' /\
    props w' = p /\
    mounted w' = true /\
    ready (guard w') = ready (fst r) /\
    invocations (calls w') = bump (snd r) (invocations (calls w)) /\
    inflight (calls w') = bump (snd r) (inflight (calls w)) /\
    clock (runtime w') = clock (runtime w) /\
    next_id (runtime w') = next_id (runtime w) /\
    (if Z.eqb (timeout (props w)) (timeout p)
     then runtime w' = runtime w /\
          unmountedRef (refs w') = unmountedRef (refs w)
     else unmountedRef (refs w') = true /\ intervals (runtime w') = []) /\
    (let late := negb (guard_eqb (fst r) (guard w)) &&
                 negb (unmountedRef (refs w')) && negb (Nat.eqb k 0) in
     intervalTrigger (guard w') =
       (if late then true else intervalTrigger (fst r)) /\
     onTicks (calls w') =
       (if late then repeat (clock (runtime w)) k ++ onTicks (calls w)
        else onTicks (calls w))).
Proof.
  intros I Hmo r. unfold rerender_race. rewrite Hmo.
  destruct (inv_synced w I) as (d & Hm & Ht & Hto).
  destruct (render_new_props p w I) as (Ksc & Ktr & Kck & Knx & Kif).
  destruct (flush_racing_rendered k (with_props p w) d Hm Ksc
              (run_interval_rendered _) Hmo)
    as (w' & Hf & Hs & Hp & Hmo' & Hrt & Htr & Hum & Hsc & Hrd & Htg & Hiv & Hif & Hot).
  assert (Hst : run_trigger (with_props p w) =
                negb (Bool.eqb (paused (props w)) (paused p))).
  { unfold run_trigger, pair_eqb. fields. rewrite Hm, Ht. simpl.
    rewrite Bool.eqb_reflx. reflexivity. }
  rewrite Hst in Hrd, Htg, Hiv, Hif, Hot. fields. fold r in Hrd, Htg, Hiv, Hif, Hot.
  rewrite <- Hrt, <- Hum, <- Htr in *. clear Hrt Hum Htr.
  exists w'. split; [exact Hf|].
  assert (Ht' : timer_ok w').
  { pose proof (inv_timer w I) as It. unfold timer_ok in *.
    destruct (Z.eqb (timeout (props w)) (timeout p)) eqn:Et.
    - apply Z.eqb_eq in Et. destruct Kif as [K1 K2].
      rewrite K1, K2, Ktr, Hp, <- Et. exact It.
    - destruct Kif as [K1 K2]. rewrite K1. exact K2. }
  assert (Hgone : mounted w' = false -> unmountedRef (refs w') = true)
    by (rewrite Hmo', Hmo; discriminate).
  assert (Hh : timeoutRef (refs w') <> None)
    by (rewrite Ktr; apply (inv_handle w I)).
  rewrite Kck in Hot.
  split.
  { destruct I as [_ Ir Ii Ib Iv _ _ _ _].
    constructor; auto; rewrite ?Hrd, ?Hiv, ?Hif, ?Hp, ?Hmo', ?Hmo; subst r;
      unfold react;
      destruct (guard w) as [tr rd]; simpl in *;
      destruct tr, rd as [[|]|], (paused (props w)), (paused p);
      try (exfalso; apply Ir; reflexivity);
      try specialize (Ii eq_refl); try specialize (Iv Hmo eq_refl);
      cbn; intros; auto; try congruence; try lia. }
  split; [exact Hp|]. split; [congruence|]. split; [exact Hrd|].
  split; [exact Hiv|]. split; [exact Hif|]. split; [exact Kck|].
  split; [exact Knx|]. split; [exact Kif|].
  split; [exact Htg | exact Hot].
Qed.

(** ** Every reachable world satisfies the invariant *)

Lemma step_Inv (w : World) (e : Event) (w' : World) :
  Inv w -> enabled w e = true -> step w e = Done w' -> Inv w'.
Proof.
  intros I En St. destruct e as [|ms|s|p| |k|k p]; simpl in St, En.
  - destruct (unmountedRef (refs w)) eqn:Hum.
    + rewrite (tick_dropped w Hum) in St. inversion St; subst; exact I.
    + destruct (tick_delivered w I Hum) as (w1 & H1 & I1 & _).
      rewrite H1 in St. inversion St; subst; exact I1.
  - destruct (elapse_spec ms w I) as (w1 & H1 & I1 & _).
    rewrite H1 in St. inversion St; subst; exact I1.
  - destruct (settle_spec s w I) as (w1 & H1 & I1 & _).
    rewrite H1 in St. inversion St; subst; exact I1.
  - destruct (rerender_spec p w I En) as (w1 & H1 & I1 & _).
    rewrite H1 in St. inversion St; subst; exact I1.
  - destruct (unmount_spec w I En) as (w1 & H1 & I1 & _).
    rewrite H1 in St. inversion St; subst; exact I1.
  - destruct (unmountedRef (refs w)) eqn:Hum.
    + unfold tick_race in St. rewrite Hum in St. inversion St; subst; exact I.
    + destruct (tick_race_spec k w I Hum) as (w1 & H1 & I1 & _).
      rewrite H1 in St. inversion St; subst; exact I1.
  - destruct (rerender_race_spec k p w I En) as (w1 & H1 & I1 & _).
    rewrite H1 in St. inversion St; subst; exact I1.
Qed.

Lemma Reachable_Inv (w : World) : Reachable w -> Inv w.
Proof.
  induction 1 as [p w Hm | w e w' _ IH En St].
  - destruct (mount_spec p) as (w1 & H1 & I1 & _).
    rewrite H1 in Hm. inversion Hm; subst; exact I1.
  - exact (step_Inv w e w' IH En St).
Qed.

(** No event of a reachable world throws or exhausts the render limit. *)
Lemma step_total (w : World) (e : Event) :
  Inv w -> enabled w e = true -> exists w', step w e = Done w'.
Proof.
  intros I En. destruct e as [|ms|s|p| |k|k p]; simpl in *.
  - destruct (unmountedRef (refs w)) eqn:Hum.
    + exists w. apply tick_dropped, Hum.
    + destruct (tick_delivered w I Hum) as (w1 & H1 & _). eauto.
  - destruct (elapse_spec ms w I) as (w1 & H1 & _). eauto.
  - destruct (settle_spec s w I) as (w1 & H1 & _). eauto.
  - destruct (rerender_spec p w I En) as (w1 & H1 & _). eauto.
  - destruct (unmount_spec w I En) as (w1 & H1 & _). eauto.
  - destruct (unmountedRef (refs w)) eqn:Hum.
    + exists w. unfold tick_race. rewrite Hum. reflexivity.
    + destruct (tick_race_spec k w I Hum) as (w1 & H1 & _). eauto.
  - destruct (rerender_race_spec k p w I En) as (w1 & H1 & _). eauto.
Qed.

(** ** Ticks of a live timer *)

Lemma div_next_hit (p c : Z) :
  0 < p -> 0 <= c -> (c / p + 1) * p = c + 1 -> (c + 1) / p = c / p + 1.
Proof.
  intros Hp Hc H. rewrite <- H. apply Z.div_mul. lia.
Qed.

Lemma div_next_miss (p c : Z) :
  0 < p -> 0 <= c -> (c / p + 1) * p <> c + 1 -> (c + 1) / p = c / p.
Proof.
  intros Hp Hc H.
  pose proof (Z.div_mod c p ltac:(lia)) as E.
  pose proof (Z.mod_pos_bound c p Hp) as B.
  symmetry. apply (Z.div_unique_pos (c + 1) p (c / p) (c mod p + 1)); lia.
Qed.

Lemma tick_times_hit (p c : Z) :
  0 < p -> 0 <= c -> (c / p + 1) * p = c + 1 ->
  tick_times p (c + 1) = (c + 1) :: tick_times p c.
Proof.
  intros Hp Hc H. unfold tick_times.
  rewrite (div_next_hit p c Hp Hc H).
  assert (Hq : 0 <= c / p) by (apply Z.div_pos; lia).
  rewrite Z2Nat.inj_add by lia. change (Z.to_nat 1) with 1%nat.
  rewrite Nat.add_1_r, seq_S, map_app, rev_app_distr.
  cbn [map rev app]. f_equal.
  rewrite Nat2Z.inj_add, Z2Nat.id by lia. rewrite <- H. f_equal. lia.
Qed.

Lemma tick_times_miss (p c : Z) :
  0 < p -> 0 <= c -> (c / p + 1) * p <> c + 1 ->
  tick_times p (c + 1) = tick_times p c.
Proof.
  intros Hp Hc H. unfold tick_times.
  rewrite (div_next_miss p c Hp Hc H). reflexivity.
Qed.

Lemma advance_ticking (p : Z) (w : World) :
  0 < p -> ticking p w ->
  exists w', advance_ms w = Done w' /\ ticking p w' /\
             clock (runtime w') = clock (runtime w) + 1.
Proof.
  intros Hp (I & Hum & Hto & Hc & Hdue & Hot).
  destruct (advance_live w I Hum)
    as (w' & Ha & I' & Hp' & Hmo & Hum' & Hck & _ & Hif).
  exists w'. split; [exact Ha|]. split; [|exact Hck].
  unfold ticking. rewrite Hp', Hto, Hck.
  split; [exact I'|]. split; [exact Hum'|]. split; [reflexivity|].
  split; [lia|].
  rewrite Hto in Hif.
  destruct (Z.eqb_spec (the_due w) (clock (runtime w) + 1)) as [E|E].
  - destruct Hif as [Hot' Hdue']. rewrite Hdue in E.
    rewrite Hot', Hdue', Hot, Hdue.
    rewrite (div_next_hit p _ Hp Hc E), (tick_times_hit p _ Hp Hc E).
    split; [lia | reflexivity].
  - destruct Hif as (Hc' & _ & Hdue'). rewrite Hdue in E.
    rewrite Hc', Hdue', Hot, Hdue.
    rewrite (div_next_miss p _ Hp Hc E), (tick_times_miss p _ Hp Hc E).
    split; reflexivity.
Qed.

Lemma elapse_ticking (p : Z) (ms : nat) (w : World) :
  0 < p -> ticking p w ->
  exists w', elapse ms w = Done w' /\ ticking p w' /\
             clock (runtime w') = clock (runtime w) + Z.of_nat ms.
Proof.
  intro Hp. revert w. induction ms as [|ms IH]; intros w T.
  - exists w. simpl. repeat split; try apply T. lia.
  - destruct (advance_ticking p w Hp T) as (w1 & Ha & T1 & Hc1).
    destruct (IH w1 T1) as (w' & He & T' & Hc').
    exists w'. simpl. rewrite Ha. simpl. split; [exact He|].
    split; [exact T'|]. lia.
Qed.

Lemma mount_ticking (pa : bool) (t : Z) :
  exists w, mount (mkProps pa t) = Done w /\ ticking (timer_period t) w /\
            clock (runtime w) = 0 /\ calls w = mkCalls [] 0%nat 0%nat /\
            guard w = mkGuard false (Some true).
Proof.
  destruct (mount_spec (mkProps pa t))
    as (w & Hm & I & Hpr & Hmo & Hg & Hc & Hrt & Htr & Hum).
  exists w. split; [exact Hm|].
  split; [|rewrite Hrt, Hc; repeat split; auto].
  pose proof (timer_period_pos t) as Hq.
  unfold ticking, the_due.
  rewrite Hpr, Hrt, Hc. cbn [timeout clock intervals iv_due onTicks].
  split; [exact I|]. split; [exact Hum|].
  unfold tick_times. rewrite Z.div_0_l by lia.
  repeat split; auto; lia.
Qed.

(** ** Runs *)

Lemma run_Reachable (es : list Event) (w w' : World) :
  Reachable w -> run es w = Done w' -> Reachable w'.
Proof.
  revert w. induction es as [|e es IH]; intros w R H; simpl in H.
  - inversion H; subst; exact R.
  - destruct (enabled w e) eqn:En; [|discriminate].
    destruct (step w e) as [w1| | |] eqn:St; simpl in H; try discriminate.
    apply (IH w1); [|exact H]. exact (reach_step w e w1 R En St).
Qed.

Lemma play_Reachable (p : Props) (es : list Event) (w : World) :
  play p es = Done w -> Reachable w.
Proof.
  unfold play. destruct (mount p) as [w0| | |] eqn:Hm; simpl; try discriminate.
  apply run_Reachable. exact (reach_mount p w0 Hm).
Qed.

(** A tick that finds the guard paused and ready. *)
Lemma paused_tick (w : World) :
  Inv w ->
  paused (props w) = true ->
  ready (guard w) = Some true ->
  unmountedRef (refs w) = false ->
  exists w1,
    interval_callback w = Done w1 /\ Inv w1 /\
    props w1 = props w /\ mounted w1 = mounted w /\
    unmountedRef (refs w1) = false /\
    guard w1 = mkGuard true (Some true) /\
    invocations (calls w1) = invocations (calls w) /\
    inflight (calls w1) = inflight (calls w).
Proof.
  intros I Hpa Hrd Hum.
  destruct (tick_delivered w I Hum)
    as (w1 & Hcb & I1 & Hp & Hmo & _ & _ & Hum1 & _ & Hg & Hiv & Hif).
  exists w1. split; [exact Hcb|]. split; [exact I1|].
  rewrite Hpa in Hg, Hiv, Hif. unfold on_tick, react in Hg, Hiv, Hif.
  rewrite Hrd, andb_false_r in Hg, Hiv, Hif. simpl in Hg, Hiv, Hif.
  repeat split; auto.
Qed.

Lemma paused_ticks (n : nat) (w : World) :
  Inv w ->
  paused (props w) = true ->
  ready (guard w) = Some true ->
  unmountedRef (refs w) = false ->
  exists w1,
    run (repeat Tick (S n)) w = Done w1 /\ Inv w1 /\
    props w1 = props w /\ mounted w1 = mounted w /\
    guard w1 = mkGuard true (Some true) /\
    invocations (calls w1) = invocations (calls w) /\
    inflight (calls w1) = inflight (calls w).
Proof.
  revert w. induction n as [|n IH]; intros w I Hpa Hrd Hum.
  - destruct (paused_tick w I Hpa Hrd Hum)
      as (w1 & Hcb & I1 & Hp & Hmo & Hum1 & Hg & Hiv & Hif).
    exists w1. simpl. rewrite Hcb. simpl.
    split; [reflexivity|]. split; [exact I1|]. repeat split; auto.
  - destruct (paused_tick w I Hpa Hrd Hum)
      as (w0 & Hcb & I0 & Hp & Hmo & Hum0 & Hg & Hiv & Hif).
    destruct (IH w0 I0) as (w1 & Hr & I1 & Hp1 & Hmo1 & Hg1 & Hiv1 & Hif1);
      try congruence.
    { rewrite Hg. reflexivity. }
    exists w1. change (repeat Tick (S (S n))) with (Tick :: repeat Tick (S n)).
    cbn [run enabled step]. rewrite Hcb. cbn [bind].
    split; [exact Hr|]. split; [exact I1|]. repeat split; congruence.
Qed.

(** After teardown no event changes the record of calls of the task. *)
Lemma run_after_teardown (es : list Event) (w : World) :
  Inv w ->
  mounted w = false ->
  run es w = Refused \/
  exists w', run es w = Done w' /\
             invocations (calls w') = invocations (calls w) /\
             onTicks (calls w') = onTicks (calls w) /\
             guard w' = guard w.
Proof.
  revert w. induction es as [|e es IH]; intros w I Hmo.
  - right. exists w. repeat split; auto.
  - pose proof (inv_gone w I Hmo) as Hum.
    assert (Hnext : forall w1,
               Inv w1 -> mounted w1 = false ->
               invocations (calls w1) = invocations (calls w) ->
               onTicks (calls w1) = onTicks (calls w) ->
               guard w1 = guard w ->
               run es w1 = Refused \/
               exists w', run es w1 = Done w' /\
                          invocations (calls w') = invocations (calls w) /\
                          onTicks (calls w') = onTicks (calls w) /\
                          guard w' = guard w).
    { intros w1 I1 Hmo1 E1 E2 E3. destruct (IH w1 I1 Hmo1) as [H|(w' & H & F1 & F2 & F3)].
      - left; exact H.
      - right. exists w'. split; [exact H|]. repeat split; congruence. }
    destruct e as [|ms|s|p| |k|k p]; cbn [run enabled step].
    + rewrite (tick_dropped w Hum). cbn [bind]. apply Hnext; auto.
    + destruct (elapse_spec ms w I) as (w1 & He & I1 & Hmo1 & _ & _ & Hd).
      destruct (Hd Hum) as [Hg Hc].
      rewrite He. cbn [bind]. apply Hnext; auto; congruence.
    + destruct (negb (inflight (calls w) =? 0)%nat); [|left; reflexivity].
      destruct (settle_spec s w I)
        as (w1 & Hs & I1 & _ & Hmo1 & _ & _ & Hot & Hg & Hiv & _).
      rewrite Hs. cbn [bind]. rewrite Hmo in Hg.
      apply Hnext; auto; congruence.
    + rewrite Hmo. left; reflexivity.
    + rewrite Hmo. left; reflexivity.
    + unfold tick_race. rewrite Hum. cbn [negb bind]. apply Hnext; auto.
    + rewrite Hmo. left; reflexivity.
Qed.

(** ** Events that only deliver ticks *)

Lemma on_tick_facts (pa : bool) (g : Guard) :
  snd (on_tick pa g) =
    negb pa && negb (intervalTrigger g) && truthy (ready g) /\
  ready (fst (on_tick pa g)) =
    (if snd (on_tick pa g) then Some false else ready g) /\
  (intervalTrigger g = true -> intervalTrigger (fst (on_tick pa g)) = true).
Proof.
  unfold on_tick, react. destruct pa, g as [[|] [[|]|]]; simpl;
    repeat split; auto.
Qed.

Lemma advance_full (w : World) :
  Inv w ->
  unmountedRef (refs w) = false ->
  exists w',
    advance_ms w = Done w' /\
    Inv w' /\
    props w' = props w /\
    mounted w' = mounted w /\
    unmountedRef (refs w') = false /\
    clock (runtime w') = clock (runtime w) + 1 /\
    if Z.eqb (the_due w) (clock (runtime w) + 1)
    then guard w' = fst (on_tick (paused (props w)) (guard w)) /\
         invocations (calls w') =
           bump (snd (on_tick (paused (props w)) (guard w))) (invocations (calls w)) /\
         inflight (calls w') =
           bump (snd (on_tick (paused (props w)) (guard w))) (inflight (calls w))
    else calls w' = calls w /\ guard w' = guard w.
Proof.
  intros I Hum. pose proof (inv_timer w I) as It.
  unfold timer_ok in It. rewrite Hum in It.
  destruct It as (id & due & Hid & Hiv & Hlt).
  unfold advance_ms, the_due, due_ids. fields. rewrite Hiv.
  cbn [filter map iv_due clock intervals].
  destruct (Z.leb_spec due (clock (runtime w) + 1)) as [Hle|Hgt].
  - assert (Hdue : due = clock (runtime w) + 1) by lia.
    subst due. rewrite Z.eqb_refl.
    cbn [map iv_id fire_all]. unfold fire, reschedule. fields.
    cbn [intervals existsb map iv_id iv_due iv_period clock next_id].
    rewrite Nat.eqb_refl. cbn [orb bind].
    match goal with |- context [interval_callback ?x] => set (w1 := x) end.
    assert (I1 : Inv w1).
    { pose proof I as [Is Ir Ii Ib Iv Isc Ih _ Ig].
      constructor; auto.
      unfold timer_ok, w1. fields. rewrite Hum.
      eexists id, _. simpl. repeat split; auto.
      pose proof (timer_period_pos (timeout (props w))). lia. }
    destruct (tick_delivered w1 I1 Hum)
      as (w' & Hcb & I' & Hp & Hmo & Hrt & Htr & Hum' & Hot & Hg & Hiv' & Hif').
    exists w'. rewrite Hcb. subst w1. fields.
    assert (E : bind (Done w') (fun w2 => Done w2) = Done w') by reflexivity.
    rewrite E, Hrt. simpl.
    split; [reflexivity|]. split; [exact I'|]. repeat split; auto.
  - assert (Hne : (due =? clock (runtime w) + 1) = false)
      by (apply Z.eqb_neq; lia).
    rewrite Hne. cbn [map fire_all].
    eexists. split; [reflexivity|]. fields.
    split; [|repeat split; auto].
    apply Inv_runtime; [exact I|]. unfold timer_ok. fields. rewrite Hum.
    exists id, due. simpl. repeat split; auto.
Qed.

Lemma signalled_refl (w : World) : Inv w -> signalled false w w.
Proof.
  intro I. unfold signalled. split; [exact I|].
  repeat split; auto. discriminate.
Qed.

Lemma signalled_trans (b1 b2 : bool) (w w1 w2 : World) :
  signalled b1 w w1 -> signalled b2 w1 w2 -> signalled (b1 || b2) w w2.
Proof.
  intros (I1 & P1 & M1 & U1 & C1 & V1 & F1 & R1 & T1)
         (I2 & P2 & M2 & U2 & C2 & V2 & F2 & R2 & T2).
  assert (Hx : b1 = true -> b2 = false).
  { intro H1. destruct b2; [|reflexivity]. specialize (C2 eq_refl).
    unfold can_start in C2. rewrite R1, H1 in C2. simpl in C2.
    rewrite andb_false_r in C2. discriminate. }
  assert (Hc : b2 = true -> can_start w = true).
  { intro H2. specialize (C2 H2). destruct b1; [specialize (Hx eq_refl); congruence|].
    unfold can_start in *. rewrite P1, U1, R1 in C2.
    destruct (intervalTrigger (guard w)) eqn:Et.
    - rewrite (T1 eq_refl) in C2. rewrite !andb_false_r in C2. discriminate.
    - destruct (intervalTrigger (guard w1)); [|exact C2].
      rewrite !andb_false_r in C2. discriminate. }
  unfold signalled. split; [exact I2|].
  split; [congruence|]. split; [congruence|]. split; [congruence|].
  split; [intro H; apply orb_true_iff in H; destruct H; auto|].
  rewrite V2, F2, R2, V1, F1, R1.
  destruct b1, b2; simpl; try (specialize (Hx eq_refl); discriminate);
    repeat split; auto.
Qed.

Lemma signal_tick (w : World) :
  Inv w ->
  exists w' b, interval_callback w = Done w' /\ signalled b w w' /\
               (unmountedRef (refs w) = false ->
                b = negb (paused (props w)) && negb (intervalTrigger (guard w)) &&
                    truthy (ready (guard w))).
Proof.
  intro I. destruct (unmountedRef (refs w)) eqn:Hum.
  - exists w, false. rewrite (tick_dropped w Hum).
    split; [reflexivity|]. split; [apply signalled_refl, I | discriminate].
  - destruct (tick_delivered w I Hum)
      as (w' & Hcb & I' & Hp & Hmo & _ & _ & Hum' & _ & Hg & Hiv & Hif).
    destruct (on_tick_facts (paused (props w)) (guard w)) as (Fb & Fr & Ft).
    exists w', (snd (on_tick (paused (props w)) (guard w))).
    split; [exact Hcb|]. split; [|intros _; exact Fb].
    unfold signalled. split; [exact I'|].
    split; [exact Hp|]. split; [exact Hmo|]. split; [congruence|].
    split; [|rewrite Hg; repeat split; auto].
    intro Hb. unfold can_start. rewrite <- Fb, Hb, Hum. reflexivity.
Qed.

Lemma signal_tick_race (k : nat) (w : World) :
  Inv w ->
  exists w' b, tick_race k w = Done w' /\ signalled b w w' /\
               (unmountedRef (refs w) = false ->
                b = negb (paused (props w)) && negb (intervalTrigger (guard w)) &&
                    truthy (ready (guard w))).
Proof.
  intro I. destruct (unmountedRef (refs w)) eqn:Hum.
  - exists w, false. unfold tick_race. rewrite Hum.
    split; [reflexivity|]. split; [apply signalled_refl, I | discriminate].
  - destruct (tick_race_spec k w I Hum)
      as (w' & Hcb & I' & Hp & Hmo & _ & _ & Hum' & Hrd & Htg & Hiv & Hif & _).
    destruct (on_tick_facts (paused (props w)) (guard w)) as (Fb & Fr & Ft).
    exists w', (snd (on_tick (paused (props w)) (guard w))).
    split; [exact Hcb|]. split; [|intros _; exact Fb].
    unfold signalled. split; [exact I'|].
    split; [exact Hp|]. split; [exact Hmo|]. split; [congruence|].
    split.
    { intro Hb. unfold can_start. rewrite <- Fb, Hb, Hum. reflexivity. }
    split; [exact Hiv|]. split; [exact Hif|]. split; [congruence|].
    intro Ht. rewrite Htg, Ht. simpl. rewrite andb_false_r. simpl.
    apply Ft, Ht.
Qed.

Lemma signal_advance (w : World) :
  Inv w -> exists w' b, advance_ms w = Done w' /\ signalled b w w'.
Proof.
  intro I. destruct (unmountedRef (refs w)) eqn:Hum.
  - rewrite (advance_dead w I Hum). eexists _, false.
    split; [reflexivity|].
    unfold signalled. fields.
    split; [apply Inv_runtime; [exact I|]; unfold timer_ok; fields;
            rewrite Hum; reflexivity|].
    repeat split; auto. discriminate.
  - destruct (advance_full w I Hum) as (w' & Ha & I' & Hp & Hmo & Hum' & _ & Hif).
    destruct (on_tick_facts (paused (props w)) (guard w)) as (Fb & Fr & Ft).
    destruct (Z.eqb (the_due w) (clock (runtime w) + 1)).
    + destruct Hif as (Hg & Hiv & Hinf).
      exists w', (snd (on_tick (paused (props w)) (guard w))).
      split; [exact Ha|]. unfold signalled. split; [exact I'|].
      split; [exact Hp|]. split; [exact Hmo|]. split; [congruence|].
      split; [|rewrite Hg; repeat split; auto].
      intro Hb. unfold can_start. rewrite <- Fb, Hb, Hum. reflexivity.
    + destruct Hif as [Hc Hg]. exists w', false.
      split; [exact Ha|]. unfold signalled. split; [exact I'|].
      rewrite Hc, Hg. repeat split; auto; congruence.
Qed.

Lemma signal_elapse (ms : nat) (w : World) :
  Inv w -> exists w' b, elapse ms w = Done w' /\ signalled b w w'.
Proof.
  revert w. induction ms as [|ms IH]; intros w I.
  - exists w, false. split; [reflexivity | apply signalled_refl, I].
  - destruct (signal_advance w I) as (w1 & b1 & Ha & S1).
    destruct (IH w1 (proj1 S1)) as (w' & b2 & He & S2).
    exists w', (b1 || b2). simpl. rewrite Ha. simpl.
    split; [exact He | exact (signalled_trans b1 b2 w w1 w' S1 S2)].
Qed.

Lemma signal_step (e : Event) (w : World) :
  Inv w -> is_signal e = true ->
  exists w' b, step w e = Done w' /\ signalled b w w'.
Proof.
  intros I He. destruct e as [|ms|s|p| |k|k p]; try discriminate; simpl.
  - destruct (signal_tick w I) as (w' & b & H & S & _). eauto.
  - apply signal_elapse, I.
  - destruct (signal_tick_race k w I) as (w' & b & H & S & _). eauto.
Qed.

Lemma enabled_signal (e : Event) (w : World) :
  is_signal e = true -> enabled w e = true.
Proof. destruct e; simpl; intro H; try discriminate; reflexivity. Qed.

(** Ticks delivered to a guard that cannot start the task start nothing. *)
Lemma signal_run (es : list Event) (w : World) :
  Inv w ->
  only_signals es = true ->
  can_start w = false ->
  exists w', run es w = Done w' /\ signalled false w w'.
Proof.
  revert w. induction es as [|e es IH]; intros w I Hs Hc.
  - exists w. split; [reflexivity | apply signalled_refl, I].
  - simpl in Hs. apply andb_true_iff in Hs. destruct Hs as [He Hs].
    destruct (signal_step e w I He) as (w1 & b & St & S1).
    assert (Hb : b = false).
    { destruct b; [|reflexivity].
      destruct S1 as (_ & _ & _ & _ & C & _). specialize (C eq_refl). congruence. }
    subst b.
    assert (Hc1 : can_start w1 = false).
    { destruct S1 as (_ & P1 & _ & U1 & _ & _ & _ & R1 & T1).
      unfold can_start in *. rewrite P1, U1, R1.
      destruct (intervalTrigger (guard w)) eqn:Et.
      - rewrite (T1 eq_refl). rewrite !andb_false_r. reflexivity.
      - destruct (intervalTrigger (guard w1)); [|exact Hc].
        rewrite !andb_false_r. reflexivity. }
    destruct (IH w1 (proj1 S1) Hs Hc1) as (w' & Hr & S2).
    exists w'. simpl. rewrite (enabled_signal e w He), St. simpl.
    split; [exact Hr | exact (signalled_trans false false w w1 w' S1 S2)].
Qed.

Lemma filter_twice {A : Type} (f : A -> bool) (l : list A) :
  filter f (filter f l) = filter f l.
Proof.
  induction l as [|a l IH]; simpl; [reflexivity|].
  destruct (f a) eqn:E; simpl; rewrite ?E, IH; reflexivity.
Qed.

(** * The claims *)

(** C1, as amended.  Ticks that arrive while the task is in flight and the
    guard is not paused invoke nothing, however many arrive and whether each
    is delivered between renders or while a render is still pending: the one
    run stays in flight and [ready] stays false.  When the promise then
    settles, the guard only becomes ready again (on a mounted component) and
    invokes nothing: the number of invocations stays what it was, so
    completion starts no follow-up run. *)
Theorem in_flight_tick_is_dropped (w : World) (es : list Event) (s : Settlement) :
  Reachable w ->
  paused (props w) = false ->
  inflight (calls w) = 1%nat ->
  only_signals es = true ->
  exists w1 w2,
    run es w = Done w1 /\
    invocations (calls w1) = invocations (calls w) /\
    inflight (calls w1) = 1%nat /\
    ready (guard w1) = ready (guard w) /\
    ready (guard w1) <> Some true /\
    step w1 (Settle s) = Done w2 /\
    invocations (calls w2) = invocations (calls w) /\
    inflight (calls w2) = 0%nat /\
    (mounted w = true -> ready (guard w2) = Some true).
Proof.
  intros R Hpa Hin Hes. pose proof (Reachable_Inv w R) as I.
  assert (Hrd : ready (guard w) <> Some true).
  { intro H. pose proof (inv_idle w I H). lia. }
  assert (Hc : can_start w = false).
  { unfold can_start. destruct (ready (guard w)) as [[|]|]; [congruence| |];
      simpl; rewrite andb_false_r; reflexivity. }
  destruct (signal_run es w I Hes Hc)
    as (w1 & Hr & I1 & Hp1 & Hmo1 & _ & _ & Hiv1 & Hif1 & Hrd1 & _).
  simpl in Hiv1, Hif1.
  destruct (settle_spec s w1 I1)
    as (w2 & Hs & I2 & Hp2 & Hmo2 & _ & _ & _ & Hg2 & Hiv2 & Hif2).
  exists w1, w2. simpl.
  split; [exact Hr|]. split; [exact Hiv1|]. split; [congruence|].
  split; [exact Hrd1|]. split; [congruence|]. split; [exact Hs|].
  split; [congruence|]. split; [rewrite Hif2, Hif1, Hin; reflexivity|].
  intro Hmo. rewrite Hg2, Hmo1, Hmo. reflexivity.
Qed.

Lemma in_flight_tick_is_dropped_witness :
  exists w1 w2,
    run [Tick; TickRace 2; Elapse 15; Tick] busy_world = Done w1 /\
    invocations (calls w1) = invocations (calls busy_world) /\
    inflight (calls w1) = 1%nat /\
    ready (guard w1) = ready (guard busy_world) /\
    ready (guard w1) <> Some true /\
    step w1 (Settle Rejected) = Done w2 /\
    invocations (calls w2) = invocations (calls busy_world) /\
    inflight (calls w2) = 0%nat /\
    (mounted busy_world = true -> ready (guard w2) = Some true).
Proof.
  apply (in_flight_tick_is_dropped busy_world
           [Tick; TickRace 2; Elapse 15; Tick] Rejected).
  - apply (play_Reachable (mkProps false 10) [Elapse 10]). vm_compute. reflexivity.
  - reflexivity.
  - reflexivity.
  - reflexivity.
Defined.

(** C1, counterexample.  Period 10; the tick at 10 starts a task that takes
    25; the ticks at 20 and 30 arrive while it runs; it settles at 35.  At
    time 39 the task has been invoked once, not twice, and after the two
    ticks in flight the guard's cells were what they were before them. *)
Lemma slow_task_gets_no_follow_up :
  exists w_busy w_ticked w_done,
    play (mkProps false 10) [Elapse 10] = Done w_busy /\
    invocations (calls w_busy) = 1%nat /\
    inflight (calls w_busy) = 1%nat /\
    step w_busy (Elapse 25) = Done w_ticked /\
    onTicks (calls w_ticked) = [30; 20; 10] /\
    guard w_ticked = guard w_busy /\
    paused (props w_ticked) = false /\
    mounted w_ticked = true /\
    run [Settle Fulfilled; Elapse 4] w_ticked = Done w_done /\
    clock (runtime w_done) = 39 /\
    invocations (calls w_done) = 1%nat /\
    invocations (calls w_done) <> 2%nat.
Proof.
  eexists _, _, _.
  split; [vm_compute; reflexivity|].
  split; [reflexivity|]. split; [reflexivity|].
  split; [vm_compute; reflexivity|].
  split; [reflexivity|]. split; [reflexivity|].
  split; [reflexivity|]. split; [reflexivity|].
  split; [vm_compute; reflexivity|].
  split; [reflexivity|]. split; [reflexivity|].
  discriminate.
Qed.

(** C2, what the code does.  When a mounted component is rendered with a
    different [timeout], the cleanup stops the old timer and sets
    [unmountedRef]; the body finds [timeoutRef] still set and starts none.
    No timer is left and no tick is delivered however long one waits. *)
Theorem period_change_stops_ticks (w : World) (p : Props) (ms : nat) :
  Reachable w ->
  mounted w = true ->
  timeout p <> timeout (props w) ->
  exists w1 w2,
    step w (Rerender p) = Done w1 /\
    mounted w1 = true /\
    intervals (runtime w1) = [] /\
    unmountedRef (refs w1) = true /\
    step w1 (Elapse ms) = Done w2 /\
    intervals (runtime w2) = [] /\
    onTicks (calls w2) = onTicks (calls w).
Proof.
  intros R Hmo Hne. pose proof (Reachable_Inv w R) as I.
  destruct (rerender_spec p w I Hmo)
    as (w1 & Hr & I1 & Hp1 & Hmo1 & Hot1 & _ & _ & _ & _ & _ & Hif).
  assert (E : Z.eqb (timeout (props w)) (timeout p) = false)
    by (apply Z.eqb_neq; congruence).
  rewrite E in Hif. destruct Hif as [Hum1 Hiv1].
  destruct (elapse_spec ms w1 I1) as (w2 & He & I2 & _ & Hum2 & _ & Hd).
  destruct (Hd Hum1) as [_ Hc2].
  exists w1, w2. simpl. repeat split; auto.
  - pose proof (inv_timer w2 I2) as It. unfold timer_ok in It.
    rewrite Hum2, Hum1 in It. exact It.
  - rewrite Hc2. exact Hot1.
Qed.

Lemma period_change_stops_ticks_witness :
  exists w1 w2,
    step idle_world (Rerender (mkProps false 5)) = Done w1 /\
    mounted w1 = true /\
    intervals (runtime w1) = [] /\
    unmountedRef (refs w1) = true /\
    step w1 (Elapse 100) = Done w2 /\
    intervals (runtime w2) = [] /\
    onTicks (calls w2) = onTicks (calls idle_world).
Proof.
  apply (period_change_stops_ticks idle_world (mkProps false 5) 100).
  - apply (play_Reachable (mkProps false 10) []). vm_compute. reflexivity.
  - reflexivity.
  - simpl. lia.
Defined.

(** C3, as amended.  Ticks that arrive while the guard is paused and ready
    invoke nothing and leave it ready, but they are latched: the trigger
    stays set, once, however many arrive.  The first render with the pause
    flag false then invokes the task, once and without a new tick. *)
Theorem paused_tick_is_latched (w : World) (n : nat) (p : Props) :
  Reachable w ->
  paused (props w) = true ->
  ready (guard w) = Some true ->
  unmountedRef (refs w) = false ->
  paused p = false ->
  exists w1 w2,
    run (repeat Tick (S n)) w = Done w1 /\
    invocations (calls w1) = invocations (calls w) /\
    guard w1 = mkGuard true (Some true) /\
    step w1 (Rerender p) = Done w2 /\
    onTicks (calls w2) = onTicks (calls w1) /\
    invocations (calls w2) = S (invocations (calls w)) /\
    guard w2 = mkGuard false (Some false).
Proof.
  intros R Hpa Hrd Hum Hp. pose proof (Reachable_Inv w R) as I.
  destruct (paused_ticks n w I Hpa Hrd Hum)
    as (w1 & Hr & I1 & Hp1 & Hmo1 & Hg1 & Hiv1 & Hif1).
  assert (Hmo : mounted w1 = true).
  { rewrite Hmo1. destruct (mounted w) eqn:E; auto.
    rewrite (inv_gone w I E) in Hum. discriminate. }
  destruct (rerender_spec p w1 I1 Hmo)
    as (w2 & Hre & I2 & _ & _ & Hot2 & Hg2 & Hiv2 & _).
  rewrite Hp1, Hpa, Hp, Hg1 in Hg2, Hiv2. simpl in Hg2, Hiv2.
  exists w1, w2. repeat split; auto. congruence.
Qed.

Lemma paused_tick_is_latched_witness :
  exists w1 w2,
    run (repeat Tick 3) paused_world = Done w1 /\
    invocations (calls w1) = invocations (calls paused_world) /\
    guard w1 = mkGuard true (Some true) /\
    step w1 (Rerender (mkProps false 10)) = Done w2 /\
    onTicks (calls w2) = onTicks (calls w1) /\
    invocations (calls w2) = S (invocations (calls paused_world)) /\
    guard w2 = mkGuard false (Some false).
Proof.
  apply (paused_tick_is_latched paused_world 2 (mkProps false 10)).
  - apply (play_Reachable (mkProps true 10) []). vm_compute. reflexivity.
  - reflexivity.
  - reflexivity.
  - reflexivity.
  - reflexivity.
Defined.

(** C3, counterexample.  Mounted paused with period 10; the only tick
    arrives at time 10, while paused and idle, and invokes nothing.  When the
    owner then renders with the pause flag false, still at time 10 and with
    no further tick, the task is invoked. *)
Lemma unpausing_runs_the_latched_tick :
  exists w_paused w_resumed,
    play (mkProps true 10) [Elapse 10] = Done w_paused /\
    onTicks (calls w_paused) = [10] /\
    guard w_paused = mkGuard true (Some true) /\
    invocations (calls w_paused) = 0%nat /\
    step w_paused (Rerender (mkProps false 10)) = Done w_resumed /\
    onTicks (calls w_resumed) = [10] /\
    clock (runtime w_resumed) = 10 /\
    invocations (calls w_resumed) = 1%nat /\
    invocations (calls w_resumed) <> 0%nat.
Proof.
  eexists _, _.
  split; [vm_compute; reflexivity|].
  split; [reflexivity|]. split; [reflexivity|]. split; [reflexivity|].
  split; [vm_compute; reflexivity|].
  split; [reflexivity|]. split; [reflexivity|]. split; [reflexivity|].
  discriminate.
Qed.

(** C4.  In every reachable world at most one promise of the task is
    unsettled, and while one is, [ready] is false.  The trigger effect calls
    the task only when it reads [ready] true, and then asks for [ready] false
    before the call.  A false [ready] becomes true again only through the
    settlement of the promise. *)
Theorem at_most_one_in_flight (w : World) :
  Reachable w ->
  (inflight (calls w) <= 1)%nat /\
  (inflight (calls w) = 1%nat -> ready (guard w) = Some false) /\
  (forall pa tr rd,
      In CallAsyncFunc (trigger_effect pa tr rd) ->
      rd = Some true /\
      trigger_effect pa tr rd = [SetIntervalTrigger false; SetReady false; CallAsyncFunc]) /\
  (forall e w',
      enabled w e = true -> step w e = Done w' ->
      (inflight (calls w') <= 1)%nat /\
      (ready (guard w) = Some false -> ready (guard w') = Some true ->
       exists s, e = Settle s)).
Proof.
  intro R. pose proof (Reachable_Inv w R) as I.
  split; [exact (inv_busy w I)|].
  split.
  { intro H. pose proof (inv_ready w I) as Hr. pose proof (inv_idle w I) as Hi.
    destruct (ready (guard w)) as [[|]|]; try congruence.
    specialize (Hi eq_refl). congruence. }
  split.
  { intros pa tr rd. unfold trigger_effect.
    destruct pa, tr, rd as [[|]|]; simpl; intro H;
      repeat (destruct H as [H|H]; try discriminate); try contradiction;
      split; reflexivity. }
  intros e w' En St.
  split; [exact (inv_busy w' (step_Inv w e w' I En St))|].
  intros Hb Ht. destruct e as [|ms|s|p| |k|k p]; simpl in St, En.
  - exfalso. destruct (unmountedRef (refs w)) eqn:Hum.
    + rewrite (tick_dropped w Hum) in St. inversion St; subst. congruence.
    + destruct (tick_delivered w I Hum)
        as (w1 & H1 & _ & _ & _ & _ & _ & _ & _ & Hg & _).
      rewrite H1 in St. inversion St; subst w1.
      rewrite Hg, (on_tick_busy _ _ Hb) in Ht. discriminate.
  - exfalso. destruct (elapse_spec ms w I) as (w1 & H1 & _ & _ & _ & Hk & _).
    rewrite H1 in St. inversion St; subst w1.
    rewrite (Hk Hb) in Ht. discriminate.
  - exists s. reflexivity.
  - exfalso. destruct (rerender_spec p w I En)
      as (w1 & H1 & _ & _ & _ & _ & Hg & _).
    rewrite H1 in St. inversion St; subst w1.
    rewrite Hg in Ht. unfold react in Ht.
    destruct (guard w) as [tr rd]; simpl in *; subst rd.
    destruct (negb (Bool.eqb (paused (props w)) (paused p)) && negb (paused p) && tr);
      simpl in Ht; discriminate.
  - exfalso. destruct (unmount_spec w I En) as (w1 & H1 & _ & _ & _ & Hg & _).
    rewrite H1 in St. inversion St; subst w1. congruence.
  - exfalso. destruct (unmountedRef (refs w)) eqn:Hum.
    + unfold tick_race in St. rewrite Hum in St. inversion St; subst. congruence.
    + destruct (tick_race_spec k w I Hum)
        as (w1 & H1 & _ & _ & _ & _ & _ & _ & Hr & _).
      rewrite H1 in St. inversion St; subst w1.
      rewrite Hr, (on_tick_busy _ _ Hb) in Ht. discriminate.
  - exfalso. destruct (rerender_race_spec k p w I En)
      as (w1 & H1 & _ & _ & _ & Hr & _).
    rewrite H1 in St. inversion St; subst w1.
    rewrite Hr in Ht. unfold react in Ht.
    destruct (guard w) as [tr rd]; simpl in *; subst rd.
    destruct (negb (Bool.eqb (paused (props w)) (paused p)) && negb (paused p) && tr);
      simpl in Ht; discriminate.
Qed.

Lemma at_most_one_in_flight_witness :
  (inflight (calls busy_world) <= 1)%nat /\
  (inflight (calls busy_world) = 1%nat -> ready (guard busy_world) = Some false) /\
  (forall pa tr rd,
      In CallAsyncFunc (trigger_effect pa tr rd) ->
      rd = Some true /\
      trigger_effect pa tr rd = [SetIntervalTrigger false; SetReady false; CallAsyncFunc]) /\
  (forall e w',
      enabled busy_world e = true -> step busy_world e = Done w' ->
      (inflight (calls w') <= 1)%nat /\
      (ready (guard busy_world) = Some false -> ready (guard w') = Some true ->
       exists s, e = Settle s)).
Proof.
  apply (at_most_one_in_flight busy_world).
  apply (play_Reachable (mkProps false 10) [Elapse 10]). vm_compute. reflexivity.
Defined.

(** C5.  Unmounting stops the timer and invokes nothing; the promise of a
    task in flight stays pending and can still settle.  Afterwards a tick
    that was already dispatched changes nothing, and no sequence of ticks,
    elapsing time and settlements changes the number of invocations or
    reaches [savedCallback] again. *)
Theorem no_invocation_after_teardown (w : World) (es : list Event) :
  Reachable w ->
  mounted w = true ->
  exists w0,
    step w Unmount = Done w0 /\
    intervals (runtime w0) = [] /\
    invocations (calls w0) = invocations (calls w) /\
    inflight (calls w0) = inflight (calls w) /\
    step w0 Tick = Done w0 /\
    (forall s, exists w1,
        step w0 (Settle s) = Done w1 /\
        inflight (calls w1) = pred (inflight (calls w)) /\
        invocations (calls w1) = invocations (calls w)) /\
    (run es w0 = Refused \/
     exists w', run es w0 = Done w' /\
                invocations (calls w') = invocations (calls w) /\
                onTicks (calls w') = onTicks (calls w)).
Proof.
  intros R Hmo. pose proof (Reachable_Inv w R) as I.
  destruct (unmount_spec w I Hmo)
    as (w0 & Hu & I0 & Hp0 & Hmo0 & Hg0 & Hc0 & Hum0 & Hiv0).
  exists w0. simpl. rewrite Hc0.
  split; [exact Hu|]. split; [exact Hiv0|].
  split; [reflexivity|]. split; [reflexivity|].
  split; [exact (tick_dropped w0 Hum0)|].
  split.
  - intro s. destruct (settle_spec s w0 I0)
      as (w1 & Hs & _ & _ & _ & _ & _ & _ & _ & Hiv & Hif).
    exists w1. rewrite Hc0 in Hiv, Hif. repeat split; auto.
  - destruct (run_after_teardown es w0 I0 Hmo0) as [H|(w' & H & E1 & E2 & _)].
    + left; exact H.
    + right. exists w'. rewrite Hc0 in E1, E2. repeat split; auto.
Qed.

Lemma no_invocation_after_teardown_witness :
  exists w0,
    step busy_world Unmount = Done w0 /\
    intervals (runtime w0) = [] /\
    invocations (calls w0) = invocations (calls busy_world) /\
    inflight (calls w0) = inflight (calls busy_world) /\
    step w0 Tick = Done w0 /\
    (forall s, exists w1,
        step w0 (Settle s) = Done w1 /\
        inflight (calls w1) = pred (inflight (calls busy_world)) /\
        invocations (calls w1) = invocations (calls busy_world)) /\
    (run [Tick; Elapse 30; Settle Rejected; Tick; Elapse 30] w0 = Refused \/
     exists w', run [Tick; Elapse 30; Settle Rejected; Tick; Elapse 30] w0 = Done w' /\
                invocations (calls w') = invocations (calls busy_world) /\
                onTicks (calls w') = onTicks (calls busy_world)).
Proof.
  apply (no_invocation_after_teardown busy_world
           [Tick; Elapse 30; Settle Rejected; Tick; Elapse 30]).
  - apply (play_Reachable (mkProps false 10) [Elapse 10]). vm_compute. reflexivity.
  - reflexivity.
Defined.

(** C6.  A rejection leaves the world exactly as a fulfilment does: it does
    not throw, invokes nothing, and the promise is no longer pending.  On a
    mounted component [ready] is true again, and the next tick delivered
    while not paused invokes the task when the trigger is not set; when the
    trigger was left set it invokes nothing, after either settlement
    alike. *)
Theorem rejection_is_like_success (w : World) :
  Reachable w ->
  inflight (calls w) = 1%nat ->
  exists w',
    step w (Settle Rejected) = Done w' /\
    step w (Settle Fulfilled) = Done w' /\
    invocations (calls w') = invocations (calls w) /\
    inflight (calls w') = 0%nat /\
    (mounted w = true ->
     ready (guard w') = Some true /\
     (paused (props w) = false -> unmountedRef (refs w) = false ->
      exists w'', step w' Tick = Done w'' /\
                  (intervalTrigger (guard w) = false ->
                   invocations (calls w'') = S (invocations (calls w)) /\
                   inflight (calls w'') = 1%nat) /\
                  (intervalTrigger (guard w) = true ->
                   invocations (calls w'') = invocations (calls w) /\
                   inflight (calls w'') = 0%nat))).
Proof.
  intros R Hin. pose proof (Reachable_Inv w R) as I.
  destruct (settle_spec Rejected w I)
    as (w' & Hs & I' & Hp & Hmo & _ & Hum & _ & Hg & Hiv & Hif).
  exists w'. simpl. split; [exact Hs|]. split; [exact Hs|].
  split; [exact Hiv|]. split; [rewrite Hif, Hin; reflexivity|].
  intro Hm. rewrite Hm in Hg. split; [rewrite Hg; reflexivity|].
  intros Hpa Hu. rewrite <- Hum in Hu.
  destruct (tick_delivered w' I' Hu)
    as (w'' & Hcb & _ & _ & _ & _ & _ & _ & _ & _ & Hiv2 & Hif2).
  exists w''. split; [exact Hcb|].
  rewrite Hp, Hpa, Hg in Hiv2, Hif2.
  split; intro Ht; rewrite Ht in Hiv2, Hif2; simpl in Hiv2, Hif2;
    rewrite Hiv2, Hif2, Hiv, Hif, Hin; split; reflexivity.
Qed.

Lemma rejection_is_like_success_witness :
  exists w',
    step busy_world (Settle Rejected) = Done w' /\
    step busy_world (Settle Fulfilled) = Done w' /\
    invocations (calls w') = invocations (calls busy_world) /\
    inflight (calls w') = 0%nat /\
    (mounted busy_world = true ->
     ready (guard w') = Some true /\
     (paused (props busy_world) = false -> unmountedRef (refs busy_world) = false ->
      exists w'', step w' Tick = Done w'' /\
                  (intervalTrigger (guard busy_world) = false ->
                   invocations (calls w'') = S (invocations (calls busy_world)) /\
                   inflight (calls w'') = 1%nat) /\
                  (intervalTrigger (guard busy_world) = true ->
                   invocations (calls w'') = invocations (calls busy_world) /\
                   inflight (calls w'') = 0%nat))).
Proof.
  apply (rejection_is_like_success busy_world).
  - apply (play_Reachable (mkProps false 10) [Elapse 10]). vm_compute. reflexivity.
  - reflexivity.
Defined.

(** C7, as amended.  Mounting with a period [p] between 1 and [TIMEOUT_MAX]
    calls [savedCallback.current] zero times; after [ms] milliseconds it has
    been called exactly at the times [p], [2p], ..., up to [ms], and so not
    at all before one full period has elapsed. *)
Theorem first_tick_after_one_period (pa : bool) (p : Z) (ms : nat) :
  0 < p <= TIMEOUT_MAX ->
  exists w0 w,
    mount (mkProps pa p) = Done w0 /\
    onTicks (calls w0) = [] /\
    invocations (calls w0) = 0%nat /\
    step w0 (Elapse ms) = Done w /\
    onTicks (calls w) =
      rev (map (fun k => Z.of_nat k * p) (seq 1 (Z.to_nat (Z.of_nat ms / p)))) /\
    (Z.of_nat ms < p -> onTicks (calls w) = []).
Proof.
  intro Hp.
  destruct (mount_ticking pa p) as (w0 & Hm & T0 & Hc0 & Hcalls & _).
  rewrite timer_period_id in T0 by lia.
  destruct (elapse_ticking p ms w0 (proj1 Hp) T0) as (w & He & T & Hc).
  exists w0, w. rewrite Hcalls. simpl.
  split; [exact Hm|]. split; [reflexivity|]. split; [reflexivity|].
  split; [exact He|].
  destruct T as (_ & _ & _ & _ & _ & Hot).
  rewrite Hc, Hc0, Z.add_0_l in Hot. unfold tick_times in Hot.
  split; [exact Hot|].
  intro Hlt. rewrite Hot, Z.div_small by lia. reflexivity.
Qed.

Lemma first_tick_after_one_period_witness :
  exists w0 w,
    mount (mkProps false 10) = Done w0 /\
    onTicks (calls w0) = [] /\
    invocations (calls w0) = 0%nat /\
    step w0 (Elapse 35) = Done w /\
    onTicks (calls w) =
      rev (map (fun k => Z.of_nat k * 10) (seq 1 (Z.to_nat (Z.of_nat 35 / 10)))) /\
    (Z.of_nat 35 < 10 -> onTicks (calls w) = []).
Proof.
  apply (first_tick_after_one_period false 10 35). unfold TIMEOUT_MAX. lia.
Defined.

(** C7, counterexample.  The period [2^31] is positive, but Node runs such a
    timer every millisecond: 25 milliseconds after mounting, far less than
    one period, [savedCallback.current] has been called 25 times, first at
    time 1. *)
Lemma huge_period_ticks_every_millisecond :
  exists w0 w,
    mount (mkProps false 2147483648) = Done w0 /\
    0 < 2147483648 /\
    step w0 (Elapse 25) = Done w /\
    Z.of_nat 25 < 2147483648 /\
    onTicks (calls w) = rev (map Z.of_nat (seq 1 25)) /\
    onTicks (calls w) <> [].
Proof.
  eexists _, _.
  split; [vm_compute; reflexivity|]. split; [lia|].
  split; [vm_compute; reflexivity|]. split; [lia|].
  split; [reflexivity | discriminate].
Qed.

(** C8.  A reachable world has at most one live timer.  The body of the
    timer effect, run again in such a world, changes nothing, and rendering
    again, with the same or another [timeout], calls [setInterval] zero
    times: no timer id is handed out and no timer is added. *)
Theorem at_most_one_live_timer (w : World) :
  Reachable w ->
  (length (intervals (runtime w)) <= 1)%nat /\
  (forall t, interval_effect t (refs w, runtime w) = (refs w, runtime w)) /\
  (forall p, mounted w = true ->
     exists w',
       step w (Rerender p) = Done w' /\
       next_id (runtime w') = next_id (runtime w) /\
       (length (intervals (runtime w')) <= length (intervals (runtime w)))%nat).
Proof.
  intro R. pose proof (Reachable_Inv w R) as I.
  split.
  { pose proof (inv_timer w I) as It. unfold timer_ok in It.
    destruct (unmountedRef (refs w)).
    - rewrite It. simpl. lia.
    - destruct It as (id & due & _ & Hiv & _). rewrite Hiv. simpl. lia. }
  split.
  { intro t. unfold interval_effect. simpl.
    pose proof (inv_handle w I) as Ih.
    destruct (timeoutRef (refs w)); [reflexivity | congruence]. }
  intros p Hmo.
  destruct (rerender_spec p w I Hmo)
    as (w' & Hr & _ & _ & _ & _ & _ & _ & _ & _ & Hnx & Hif).
  exists w'. simpl. split; [exact Hr|]. split; [exact Hnx|].
  destruct (Z.eqb (timeout (props w)) (timeout p)).
  - destruct Hif as [Hrt _]. rewrite Hrt. lia.
  - destruct Hif as [_ Hiv]. rewrite Hiv. simpl. lia.
Qed.

Lemma at_most_one_live_timer_witness :
  (length (intervals (runtime idle_world)) <= 1)%nat /\
  (forall t, interval_effect t (refs idle_world, runtime idle_world) =
             (refs idle_world, runtime idle_world)) /\
  (forall p, mounted idle_world = true ->
     exists w',
       step idle_world (Rerender p) = Done w' /\
       next_id (runtime w') = next_id (runtime idle_world) /\
       (length (intervals (runtime w')) <= length (intervals (runtime idle_world)))%nat).
Proof.
  apply (at_most_one_live_timer idle_world).
  apply (play_Reachable (mkProps false 10) []). vm_compute. reflexivity.
Defined.

(** C9.  Running the timer's cleanup a second time leaves the world exactly
    as after the first time; the cleanup always returns, never touches the
    guard or the record of calls, and when no timer was ever started it
    leaves the timer queue alone. *)
Theorem stop_idempotent (w : World) :
  stop (stop w) = stop w /\
  unmountedRef (refs (stop w)) = true /\
  guard (stop w) = guard w /\
  calls (stop w) = calls w /\
  match timeoutRef (refs w) with
  | None => runtime (stop w) = runtime w
  | Some id => runtime (stop w) = clearInterval id (runtime w)
  end.
Proof.
  destruct w as [p g [sc tr um] m mo n [ck ivs nx] c].
  unfold stop, interval_cleanup, clearInterval. simpl.
  destruct tr as [id|]; simpl; repeat split.
  rewrite filter_twice. reflexivity.
Qed.

(** C10.  While [ready] is still [undefined] the trigger effect, run with the
    trigger set and the guard not paused, only resets the trigger.  A signal
    delivered to such a world runs to completion, leaves [ready] undefined
    and the trigger reset, and changes nothing in the record of calls. *)
Theorem signal_before_ready_is_dropped (w : World) :
  synced w ->
  mounted w = true ->
  paused (props w) = false ->
  guard w = mkGuard false None ->
  trigger_effect false true None = [SetIntervalTrigger false] /\
  exists w',
    setIntervalTrigger true w = Done w' /\
    guard w' = mkGuard false None /\
    calls w' = calls w.
Proof.
  intros Hs Hmo Hpa Hg. split; [reflexivity|].
  unfold setIntervalTrigger.
  destruct (dispatch_spec (mkGuard true (ready (guard w))) w Hs)
    as (w' & Hd & _ & _ & _ & _ & _ & _ & _ & Hg' & Hc').
  exists w'. split; [exact Hd|].
  rewrite Hmo, Hpa, Hg in Hg', Hc'. simpl in Hg', Hc'.
  split; [exact Hg'|]. rewrite Hc'. destruct (calls w); reflexivity.
Qed.

Lemma signal_before_ready_is_dropped_witness :
  trigger_effect false true None = [SetIntervalTrigger false] /\
  exists w',
    setIntervalTrigger true unready_world = Done w' /\
    guard w' = mkGuard false None /\
    calls w' = calls unready_world.
Proof.
  apply (signal_before_ready_is_dropped unready_world).
  - eexists. repeat split; reflexivity.
  - reflexivity.
  - reflexivity.
  - reflexivity.
Defined.


(** * Further properties *)

(** ** Properties kept by every elementary move *)

Section Preserved.

Variable P : World -> Prop.

Hypothesis P_render : forall w, P w -> P (setSafeInterval w).
Hypothesis P_bailout : forall w, P w -> P (bailout w).
Hypothesis P_guard : forall g w, P w -> P (with_guard g w).
Hypothesis P_calls : forall c w, P w -> P (with_calls c w).
Hypothesis P_props : forall p w, P w -> P (with_props p w).
Hypothesis P_clock : forall w,
    P w ->
    P (with_runtime (mkRuntime (clock (runtime w) + 1) (intervals (runtime w))
                               (next_id (runtime w))) w).
Hypothesis P_reschedule : forall id w,
    P w -> P (with_runtime (reschedule id (runtime w)) w).
Hypothesis P_unmount : forall w, P w -> P (with_mounted false (stop w)).

Lemma flush_preserved (fuel : nat) (w w' : World) :
  P w -> flush fuel w = Done w' -> P w'.
Proof.
  revert w. induction fuel as [|fuel IH]; intros w Hw H.
  - discriminate.
  - rewrite flush_S in H.
    destruct (guard_eqb (guard (setSafeInterval w)) (guard w)).
    + inversion H; subst. apply P_render, Hw.
    + apply (IH (setSafeInterval w)); [apply P_render, Hw | exact H].
Qed.

Lemma dispatch_preserved (g : Guard) (w w' : World) :
  P w -> dispatch g w = Done w' -> P w'.
Proof.
  unfold dispatch. intros Hw H.
  destruct (negb (mounted w)); [inversion H; subst; exact Hw|].
  destruct (guard_eqb g (guard w)); [inversion H; subst; apply P_bailout, Hw|].
  apply (flush_preserved _ _ _ (P_guard g w Hw) H).
Qed.

Lemma callback_preserved (w w' : World) :
  P w -> interval_callback w = Done w' -> P w'.
Proof.
  unfold interval_callback, setIntervalTrigger. intros Hw H.
  destruct (negb (unmountedRef (refs w))); [|inversion H; subst; exact Hw].
  destruct (savedCallback (refs w)); [|discriminate].
  apply (dispatch_preserved _ _ _ (P_calls _ w Hw) H).
Qed.

Lemma late_callbacks_preserved (k : nat) (w w' : World) :
  P w -> late_callbacks k w = Done w' -> P w'.
Proof.
  revert w. induction k as [|k IH]; intros w Hw H; simpl in H.
  - inversion H; subst; exact Hw.
  - destruct (late_callback w) as [w1| | |] eqn:L; simpl in H; try discriminate.
    apply (IH w1); [|exact H].
    unfold late_callback in L.
    destruct (negb (unmountedRef (refs w))); [|inversion L; subst; exact Hw].
    destruct (savedCallback (refs w)); [|discriminate].
    inversion L; subst.
    destruct (mounted w); [apply P_guard|]; apply P_calls, Hw.
Qed.

Lemma flush_racing_preserved (k : nat) (w w' : World) :
  P w -> flush_racing k w = Done w' -> P w'.
Proof.
  unfold flush_racing. intros Hw H.
  destruct (guard_eqb (guard (setSafeInterval w)) (guard w)).
  - inversion H; subst. apply P_render, Hw.
  - destruct (late_callbacks k (setSafeInterval w)) as [w2| | |] eqn:L;
      simpl in H; try discriminate.
    apply (flush_preserved nested_update_limit w2 w'); [|exact H].
    apply (late_callbacks_preserved k _ _ (P_render w Hw) L).
Qed.

Lemma tick_race_preserved (k : nat) (w w' : World) :
  P w -> tick_race k w = Done w' -> P w'.
Proof.
  unfold tick_race, dispatch_racing. intros Hw H.
  destruct (negb (unmountedRef (refs w))); [|inversion H; subst; exact Hw].
  destruct (savedCallback (refs w)); [|discriminate].
  cbn [mounted with_calls] in H.
  destruct (negb (mounted w)); [inversion H; subst; apply P_calls, Hw|].
  match type of H with
  | (if ?c then _ else _) = _ => destruct c
  end.
  - inversion H; subst. apply P_bailout, P_calls, Hw.
  - apply (flush_racing_preserved k _ _ (P_guard _ _ (P_calls _ w Hw)) H).
Qed.

Lemma settle_preserved (s : Settlement) (w w' : World) :
  P w -> settle s w = Done w' -> P w'.
Proof.
  unfold settle, on_settled, setReady. intros Hw H.
  destruct s; apply (dispatch_preserved _ _ _ (P_calls _ w Hw) H).
Qed.

Lemma fire_all_preserved (ids : list nat) (w w' : World) :
  P w -> fire_all ids w = Done w' -> P w'.
Proof.
  revert w. induction ids as [|id ids IH]; intros w Hw H; simpl in H.
  - inversion H; subst; exact Hw.
  - destruct (fire id w) as [w1| | |] eqn:F; simpl in H; try discriminate.
    apply (IH w1); [|exact H].
    unfold fire in F.
    destruct (existsb _ _); [|inversion F; subst; exact Hw].
    apply (callback_preserved _ _ (P_reschedule id w Hw) F).
Qed.

Lemma elapse_preserved (ms : nat) (w w' : World) :
  P w -> elapse ms w = Done w' -> P w'.
Proof.
  revert w. induction ms as [|ms IH]; intros w Hw H; simpl in H.
  - inversion H; subst; exact Hw.
  - destruct (advance_ms w) as [w1| | |] eqn:A; simpl in H; try discriminate.
    apply (IH w1); [|exact H].
    unfold advance_ms in A.
    apply (fire_all_preserved _ _ _ (P_clock w Hw) A).
Qed.

Lemma step_preserved (e : Event) (w w' : World) :
  P w -> step w e = Done w' -> P w'.
Proof.
  intros Hw H. destruct e as [|ms|s|p| |k|k p]; simpl in H.
  - apply (callback_preserved _ _ Hw H).
  - apply (elapse_preserved _ _ _ Hw H).
  - apply (settle_preserved _ _ _ Hw H).
  - unfold rerender in H. destruct (mounted w); [|inversion H; subst; exact Hw].
    apply (flush_preserved _ _ _ (P_props p w Hw) H).
  - unfold unmount in H. destruct (mounted w); inversion H; subst;
      [apply P_unmount, Hw | exact Hw].
  - apply (tick_race_preserved k _ _ Hw H).
  - unfold rerender_race in H.
    destruct (mounted w); [|inversion H; subst; exact Hw].
    apply (flush_racing_preserved k _ _ (P_props p w Hw) H).
Qed.

Lemma run_preserved (es : list Event) (w w' : World) :
  P w -> run es w = Done w' -> P w'.
Proof.
  revert w. induction es as [|e es IH]; intros w Hw H; simpl in H.
  - inversion H; subst; exact Hw.
  - destruct (enabled w e); [|discriminate].
    destruct (step w e) as [w1| | |] eqn:St; simpl in H; try discriminate.
    apply (IH w1); [|exact H]. apply (step_preserved e w w1 Hw St).
Qed.

End Preserved.

(** ** The timer made at mount *)

Lemma Forall_filter_keep {A : Type} (Q : A -> Prop) (f : A -> bool) (l : list A) :
  Forall Q l -> Forall Q (filter f l).
Proof.
  induction 1 as [|a l Ha _ IH]; simpl; [constructor|].
  destruct (f a); [constructor; assumption | assumption].
Qed.

Lemma timer_fixed_render (h n : nat) (q : Z) (w : World) :
  timer_fixed h n q w -> timer_fixed h n q (setSafeInterval w).
Proof.
  intros (Hh & Hn & Hm & Hf).
  unfold timer_fixed, setSafeInterval, _setSafeInterval, is_first.
  cbn [refs runtime memo].
  destruct (memo w) as [d|] eqn:Em; [|congruence].
  unfold interval_effect, interval_cleanup, clearInterval.
  destruct (run_interval w), (run_saved w); simpl; rewrite ?Hh; simpl;
    repeat split; auto; try discriminate;
    apply Forall_filter_keep, Hf.
Qed.

Lemma timer_fixed_reschedule (h n : nat) (q : Z) (id : nat) (w : World) :
  timer_fixed h n q w ->
  timer_fixed h n q (with_runtime (reschedule id (runtime w)) w).
Proof.
  intros (Hh & Hn & Hm & Hf). unfold timer_fixed, reschedule. simpl.
  repeat split; auto.
  induction Hf as [|iv l Hiv _ IH]; simpl; constructor; auto.
  destruct (Nat.eqb (iv_id iv) id); simpl; exact Hiv.
Qed.

Lemma timer_fixed_unmount (h n : nat) (q : Z) (w : World) :
  timer_fixed h n q w -> timer_fixed h n q (with_mounted false (stop w)).
Proof.
  intros (Hh & Hn & Hm & Hf).
  unfold timer_fixed, stop, interval_cleanup, clearInterval. simpl.
  rewrite Hh. simpl. repeat split; auto.
  apply Forall_filter_keep, Hf.
Qed.

Lemma timer_fixed_run (h n : nat) (q : Z) (es : list Event) (w w' : World) :
  timer_fixed h n q w -> run es w = Done w' -> timer_fixed h n q w'.
Proof.
  apply (run_preserved (timer_fixed h n q)).
  - apply timer_fixed_render.
  - intros w0 (Hh & Hn & Hm & Hf). unfold timer_fixed, bailout. simpl.
    repeat split; auto. discriminate.
  - intros g w0 H; exact H.
  - intros c w0 H; exact H.
  - intros p w0 H; exact H.
  - intros w0 (Hh & Hn & Hm & Hf); repeat split; auto.
  - apply timer_fixed_reschedule.
  - apply timer_fixed_unmount.
Qed.

(** ** Runs never throw *)

Lemma run_total (es : list Event) (w : World) :
  Inv w ->
  run es w = Refused \/ exists w', run es w = Done w' /\ Inv w'.
Proof.
  revert w. induction es as [|e es IH]; intros w I; simpl.
  - right. exists w. split; [reflexivity | exact I].
  - destruct (enabled w e) eqn:En; [|left; reflexivity].
    destruct (step_total w e I En) as (w1 & St).
    rewrite St. simpl. apply IH. exact (step_Inv w e w1 I En St).
Qed.

(** X1.  With a task that returns a promise whenever it is called (the
    hook's precondition: the task does not throw before it returns one), no
    event that can occur in a reachable world throws or exhausts the nested
    update limit, and neither does any sequence of events, ticks that race a
    pending render included: the [savedCallback] ref, null at first, is never
    called while null, and the setters called by the effects never loop. *)
Theorem hook_never_throws (w : World) (es : list Event) :
  Reachable w ->
  (forall e, enabled w e = true -> exists w', step w e = Done w') /\
  (run es w = Refused \/ exists w', run es w = Done w').
Proof.
  intro R. pose proof (Reachable_Inv w R) as I. split.
  - intros e En. exact (step_total w e I En).
  - destruct (run_total es w I) as [H|(w' & H & _)]; [left|right; exists w'];
      exact H.
Qed.

Lemma hook_never_throws_witness :
  (forall e, enabled busy_world e = true -> exists w', step busy_world e = Done w') /\
  (run [Tick; Settle Rejected; TickRace 2; Rerender (mkProps true 3); Elapse 40;
        Unmount; Tick]
       busy_world = Refused \/
   exists w',
     run [Tick; Settle Rejected; TickRace 2; Rerender (mkProps true 3); Elapse 40;
          Unmount; Tick]
         busy_world = Done w').
Proof.
  apply (hook_never_throws busy_world).
  apply (play_Reachable (mkProps false 10) [Elapse 10]). vm_compute. reflexivity.
Defined.

(** ** Render cascades *)

Lemma render_twice_guard (w : World) :
  guard (setSafeInterval (setSafeInterval w)) = guard (setSafeInterval w).
Proof.
  destruct w as [[pa t] [tr rd] r m mo n rt c].
  destruct m as [[[dt dp] ds dto]|];
    destruct pa, tr, rd as [[|]|]; try destruct dt; try destruct dp;
    reflexivity.
Qed.

Lemma render_renders (w : World) : renders (setSafeInterval w) = S (renders w).
Proof. reflexivity. Qed.

(** X2.  From any state whatever, the updates that the effects request
    settle within two renders: the cascade ends, well inside the nested
    update limit, in a world that a further render would leave with the same
    cells. *)
Theorem cascade_settles_in_two_renders (w : World) (k : nat) :
  exists w',
    flush (S (S k)) w = Done w' /\
    (renders w < renders w' <= renders w + 2)%nat /\
    guard (setSafeInterval w') = guard w'.
Proof.
  rewrite flush_S.
  destruct (guard_eqb (guard (setSafeInterval w)) (guard w)) eqn:E.
  - exists (setSafeInterval w). split; [reflexivity|].
    rewrite render_renders. split; [lia|]. apply render_twice_guard.
  - rewrite flush_S, render_twice_guard, guard_eqb_refl.
    exists (setSafeInterval (setSafeInterval w)). split; [reflexivity|].
    rewrite !render_renders. split; [lia|]. apply render_twice_guard.
Qed.

(** ** The cells between events *)

(** X11.  In every reachable world [ready] is a boolean, and on a mounted
    component [ready] tells whether a promise of the task is pending: false
    exactly when one is, true exactly when none is. *)
Theorem guard_cells_are_consistent (w : World) :
  Reachable w ->
  ready (guard w) <> None /\
  (mounted w = true ->
   (ready (guard w) = Some false <-> inflight (calls w) = 1%nat) /\
   (ready (guard w) = Some true <-> inflight (calls w) = 0%nat)).
Proof.
  intro R. destruct (Reachable_Inv w R) as [_ Ir Ii Ib Iv _ _ _ _].
  split; [exact Ir|].
  intro Hmo. specialize (Iv Hmo).
  destruct (ready (guard w)) as [[|]|]; try congruence.
  - specialize (Ii eq_refl). split; split; intro H; try congruence; lia.
  - specialize (Iv eq_refl). split; split; intro H; try congruence; lia.
Qed.

Lemma guard_cells_are_consistent_witness :
  ready (guard stuck_world) <> None /\
  (mounted stuck_world = true ->
   (ready (guard stuck_world) = Some false <-> inflight (calls stuck_world) = 1%nat) /\
   (ready (guard stuck_world) = Some true <-> inflight (calls stuck_world) = 0%nat)).
Proof.
  apply (guard_cells_are_consistent stuck_world).
  apply (play_Reachable (mkProps false 10) [TickRace 1]).
  vm_compute. reflexivity.
Defined.

(** ** Delivered ticks *)

(** X4.  A tick delivered to an unpaused guard of a live timer, React
    rendering before anything else happens.  When the trigger is not set the
    tick leaves exactly one task in flight, with the trigger reset and
    [ready] false: it starts the task when none was running and starts
    nothing when one was.  When the trigger was left set, the tick changes no
    cell and starts nothing. *)
Theorem unpaused_tick_leaves_one_in_flight (w : World) :
  Reachable w ->
  paused (props w) = false ->
  unmountedRef (refs w) = false ->
  exists w',
    step w Tick = Done w' /\
    onTicks (calls w') = clock (runtime w) :: onTicks (calls w) /\
    (intervalTrigger (guard w) = false ->
     guard w' = mkGuard false (Some false) /\
     inflight (calls w') = 1%nat /\
     (invocations (calls w') + inflight (calls w) = S (invocations (calls w)))%nat) /\
    (intervalTrigger (guard w) = true ->
     guard w' = guard w /\
     invocations (calls w') = invocations (calls w) /\
     inflight (calls w') = inflight (calls w)).
Proof.
  intros R Hpa Hum. pose proof (Reachable_Inv w R) as I.
  destruct (tick_delivered w I Hum)
    as (w' & Hcb & _ & _ & Hmo' & _ & _ & _ & Hot & Hg & Hiv & Hif).
  exists w'. split; [exact Hcb|]. split; [exact Hot|].
  assert (Hmo : mounted w = true).
  { destruct (mounted w) eqn:E; auto.
    rewrite (inv_gone w I E) in Hum. discriminate. }
  pose proof (inv_ready w I) as Hr.
  pose proof (inv_idle w I) as Hi.
  pose proof (inv_live w I Hmo) as Hv.
  rewrite Hpa in Hg, Hiv, Hif. unfold on_tick, react in Hg, Hiv, Hif.
  destruct (guard w) as [tr [[|]|]]; simpl in *; try congruence;
    split; intro Ht; subst tr; simpl in *.
  - specialize (Hi eq_refl). rewrite Hg, Hiv, Hif, Hi. repeat split; lia.
  - repeat split; assumption.
  - specialize (Hv eq_refl). rewrite Hg, Hiv, Hif, Hv. repeat split; lia.
  - repeat split; assumption.
Qed.

Lemma unpaused_tick_leaves_one_in_flight_witness :
  exists w',
    step idle_world Tick = Done w' /\
    onTicks (calls w') = clock (runtime idle_world) :: onTicks (calls idle_world) /\
    (intervalTrigger (guard idle_world) = false ->
     guard w' = mkGuard false (Some false) /\
     inflight (calls w') = 1%nat /\
     (invocations (calls w') + inflight (calls idle_world) =
      S (invocations (calls idle_world)))%nat) /\
    (intervalTrigger (guard idle_world) = true ->
     guard w' = guard idle_world /\
     invocations (calls w') = invocations (calls idle_world) /\
     inflight (calls w') = inflight (calls idle_world)).
Proof.
  apply (unpaused_tick_leaves_one_in_flight idle_world).
  - apply (play_Reachable (mkProps false 10) []). vm_compute. reflexivity.
  - reflexivity.
  - reflexivity.
Defined.

(** ** While nothing can start the task *)

Lemma react_fresh (pa : bool) (g : Guard) : react false pa g = (g, false).
Proof. reflexivity. Qed.

(** A guard that is paused, or not paused with its trigger left set, starts
    nothing as long as the pause flag is left alone, and a promise that is
    pending goes away only by settling. *)
Lemma quiet_step (b : bool) (w : World) (e : Event) :
  Inv w ->
  paused (props w) = b ->
  (b = false -> intervalTrigger (guard w) = true) ->
  enabled w e = true ->
  keeps b e = true ->
  exists w',
    step w e = Done w' /\ Inv w' /\
    paused (props w') = b /\
    (intervalTrigger (guard w) = true -> intervalTrigger (guard w') = true) /\
    invocations (calls w') = invocations (calls w) /\
    (inflight (calls w') + (if is_settle e then 1 else 0))%nat = inflight (calls w).
Proof.
  intros I Hpa Hb En Hk.
  assert (Hc : can_start w = false).
  { unfold can_start. rewrite Hpa. destruct b; [reflexivity|].
    rewrite (Hb eq_refl). reflexivity. }
  destruct (is_signal e) eqn:Es.
  - destruct (signal_step e w I Es) as (w' & b0 & St & S).
    destruct S as (I' & P' & _ & _ & C & V & F & _ & T).
    assert (b0 = false) by (destruct b0; [specialize (C eq_refl); congruence | reflexivity]).
    subst b0. simpl in V, F.
    exists w'. split; [exact St|]. split; [exact I'|].
    split; [congruence|]. split; [exact T|]. split; [exact V|].
    destruct e; try discriminate; simpl; lia.
  - destruct e as [|ms|s|p| |k|k p]; try discriminate; simpl in *.
    + destruct (settle_spec s w I)
        as (w' & Hs & I' & Hp & _ & _ & _ & _ & Hg & Hiv & Hif).
      exists w'. split; [exact Hs|]. split; [exact I'|].
      split; [congruence|].
      split; [intro Ht; rewrite Hg; destruct (mounted w); simpl; exact Ht|].
      split; [exact Hiv|].
      rewrite Hif. destruct (inflight (calls w)); [discriminate | simpl; lia].
    + destruct (rerender_spec p w I En)
        as (w' & Hr & I' & Hp & _ & _ & Hg & Hiv & Hif & _).
      apply Bool.eqb_prop in Hk.
      rewrite Hpa, Hk, Bool.eqb_reflx in Hg, Hiv, Hif.
      simpl negb in Hg, Hiv, Hif. rewrite react_fresh in Hg, Hiv, Hif.
      simpl in Hg, Hiv, Hif.
      exists w'. split; [exact Hr|]. split; [exact I'|].
      rewrite Hp, Hg, Hiv, Hif. repeat split; auto.
    + destruct (unmount_spec w I En) as (w' & Hu & I' & Hp & _ & Hg & Hc' & _).
      exists w'. split; [exact Hu|]. split; [exact I'|].
      rewrite Hp, Hg, Hc'. repeat split; auto.
    + destruct (rerender_race_spec k p w I En)
        as (w' & Hr & I' & Hp & _ & _ & Hiv & Hif & _ & _ & _ & Htg & _).
      apply Bool.eqb_prop in Hk.
      rewrite Hpa, Hk, Bool.eqb_reflx in Hiv, Hif, Htg.
      simpl negb in Hiv, Hif, Htg. rewrite react_fresh in Hiv, Hif, Htg.
      simpl fst in Htg. rewrite guard_eqb_refl in Htg.
      simpl in Hiv, Hif, Htg.
      exists w'. split; [exact Hr|]. split; [exact I'|].
      rewrite Hp, Htg, Hiv, Hif. repeat split; auto.
Qed.

Lemma quiet_run (b : bool) (es : list Event) (w : World) :
  Inv w ->
  paused (props w) = b ->
  (b = false -> intervalTrigger (guard w) = true) ->
  keeps_pause b es = true ->
  run es w = Refused \/
  exists w',
    run es w = Done w' /\
    paused (props w') = b /\
    (intervalTrigger (guard w) = true -> intervalTrigger (guard w') = true) /\
    invocations (calls w') = invocations (calls w) /\
    (inflight (calls w') + settlements es)%nat = inflight (calls w).
Proof.
  revert w. induction es as [|e es IH]; intros w I Hpa Hb Hs.
  - right. exists w. unfold settlements. simpl. repeat split; auto.
  - simpl in Hs. apply andb_true_iff in Hs. destruct Hs as [Hk Hs].
    simpl. destruct (enabled w e) eqn:En; [|left; reflexivity].
    destruct (quiet_step b w e I Hpa Hb En Hk)
      as (w1 & St & I1 & Hp1 & Ht1 & Hiv1 & Hif1).
    rewrite St. simpl.
    destruct (IH w1 I1 Hp1 (fun H => Ht1 (Hb H)) Hs)
      as [H|(w' & H & Hp & Ht & Hiv & Hif)].
    + left; exact H.
    + right. exists w'. split; [exact H|]. split; [exact Hp|].
      split; [intro T; exact (Ht (Ht1 T))|]. split; [congruence|].
      unfold settlements in *. simpl. destruct (is_settle e); simpl; lia.
Qed.

(** X3.  While the pause flag stays true nothing invokes the task: whatever
    ticks arrive, however much time passes, whether the running task settles
    or the component is rendered again (still paused) or unmounted, the number
    of invocations stays the same.  A task already in flight is left to
    finish: the number of pending promises goes down by one for each
    settlement and by nothing else. *)
Theorem paused_guard_invokes_nothing (w : World) (es : list Event) :
  Reachable w ->
  paused (props w) = true ->
  keeps_pause true es = true ->
  run es w = Refused \/
  exists w',
    run es w = Done w' /\
    paused (props w') = true /\
    invocations (calls w') = invocations (calls w) /\
    (inflight (calls w') + settlements es)%nat = inflight (calls w).
Proof.
  intros R Hpa Hs.
  destruct (quiet_run true es w (Reachable_Inv w R) Hpa) as [H|(w' & H & Hp & _ & Hiv & Hif)];
    [discriminate | exact Hs | left; exact H |].
  right. exists w'. repeat split; assumption.
Qed.

Lemma paused_guard_invokes_nothing_witness :
  run [Elapse 35; TickRace 2; Settle Rejected; Rerender (mkProps true 10);
       Elapse 20; Unmount; Tick]
      paused_busy_world = Refused \/
  exists w',
    run [Elapse 35; TickRace 2; Settle Rejected; Rerender (mkProps true 10);
         Elapse 20; Unmount; Tick]
        paused_busy_world = Done w' /\
    paused (props w') = true /\
    invocations (calls w') = invocations (calls paused_busy_world) /\
    (inflight (calls w') +
     settlements [Elapse 35; TickRace 2; Settle Rejected; Rerender (mkProps true 10);
                  Elapse 20; Unmount; Tick])%nat = inflight (calls paused_busy_world).
Proof.
  apply (paused_guard_invokes_nothing paused_busy_world).
  - apply (play_Reachable (mkProps false 10) [Elapse 10; Rerender (mkProps true 10)]).
    vm_compute. reflexivity.
  - reflexivity.
  - reflexivity.
Defined.

(** ** A tick that races a render *)

(** X12.  When a tick starts a render and further ticks are delivered after
    the trigger effect has queued its updates and before React has rendered
    them, the trigger is left set on an unpaused guard.  From then on, as long
    as the owner leaves the pause flag false, nothing invokes the task again:
    not a tick, not the settlement of the running task, not a render; the
    timer keeps ticking in vain. *)
Theorem racing_tick_stalls_the_timer (w : World) (k : nat) (es : list Event) :
  Reachable w ->
  paused (props w) = false ->
  intervalTrigger (guard w) = false ->
  unmountedRef (refs w) = false ->
  keeps_pause false es = true ->
  exists w1,
    step w (TickRace (S k)) = Done w1 /\
    paused (props w1) = false /\
    intervalTrigger (guard w1) = true /\
    unmountedRef (refs w1) = false /\
    intervals (runtime w1) = intervals (runtime w) /\
    invocations (calls w1) =
      bump (truthy (ready (guard w))) (invocations (calls w)) /\
    onTicks (calls w1) =
      repeat (clock (runtime w)) (S (S k)) ++ onTicks (calls w) /\
    (run es w1 = Refused \/
     exists w',
       run es w1 = Done w' /\
       paused (props w') = false /\
       intervalTrigger (guard w') = true /\
       invocations (calls w') = invocations (calls w1)).
Proof.
  intros R Hpa Ht Hum Hs. pose proof (Reachable_Inv w R) as I.
  destruct (tick_race_spec (S k) w I Hum)
    as (w1 & Hcb & I1 & Hp1 & _ & Hrt & _ & Hum1 & _ & Htg & Hiv & _ & Hot).
  destruct (on_tick_facts (paused (props w)) (guard w)) as (Fb & _).
  rewrite Hpa, Ht in Htg, Hot, Fb. simpl in Htg, Hot, Fb.
  rewrite Hpa, Fb in Hiv.
  exists w1. simpl. split; [exact Hcb|]. split; [congruence|].
  split; [exact Htg|]. split; [exact Hum1|]. split; [rewrite Hrt; reflexivity|].
  split; [exact Hiv|].
  split.
  { rewrite Hot. cbn [repeat app]. rewrite repeat_shift. reflexivity. }
  assert (Hp : paused (props w1) = false) by congruence.
  destruct (quiet_run false es w1 I1 Hp (fun _ => Htg) Hs)
    as [H|(w' & H & Hp' & Ht' & Hiv' & _)].
  - left; exact H.
  - right. exists w'. repeat split; auto.
Qed.

Lemma racing_tick_stalls_the_timer_witness :
  exists w1,
    step idle_world (TickRace 1) = Done w1 /\
    paused (props w1) = false /\
    intervalTrigger (guard w1) = true /\
    unmountedRef (refs w1) = false /\
    intervals (runtime w1) = intervals (runtime idle_world) /\
    invocations (calls w1) =
      bump (truthy (ready (guard idle_world))) (invocations (calls idle_world)) /\
    onTicks (calls w1) =
      repeat (clock (runtime idle_world)) 2 ++ onTicks (calls idle_world) /\
    (run [Settle Fulfilled; Elapse 100; Rerender (mkProps false 10); Tick] w1 = Refused \/
     exists w',
       run [Settle Fulfilled; Elapse 100; Rerender (mkProps false 10); Tick] w1 = Done w' /\
       paused (props w') = false /\
       intervalTrigger (guard w') = true /\
       invocations (calls w') = invocations (calls w1)).
Proof.
  apply (racing_tick_stalls_the_timer idle_world 0
           [Settle Fulfilled; Elapse 100; Rerender (mkProps false 10); Tick]).
  - apply (play_Reachable (mkProps false 10) []). vm_compute. reflexivity.
  - reflexivity.
  - reflexivity.
  - reflexivity.
  - reflexivity.
Defined.

(** ** A task faster than the period *)

Lemma ticking_one (w w1 w2 : World) :
  advance_ms w = Done w1 -> advance_ms w = Done w2 -> w1 = w2.
Proof. intros H1 H2. rewrite H1 in H2. inversion H2. reflexivity. Qed.

Lemma advance_unpaused (p : Z) (w : World) :
  0 < p ->
  ticking p w ->
  paused (props w) = false ->
  intervalTrigger (guard w) = false ->
  exists w',
    advance_ms w = Done w' /\ ticking p w' /\
    clock (runtime w') = clock (runtime w) + 1 /\
    paused (props w') = false /\
    intervalTrigger (guard w') = false /\
    (invocations (calls w') + inflight (calls w) =
     invocations (calls w) + inflight (calls w'))%nat /\
    if Z.eqb ((clock (runtime w) + 1) / p) (clock (runtime w) / p)
    then inflight (calls w') = inflight (calls w)
    else inflight (calls w') = 1%nat.
Proof.
  intros Hp T Hpa Ht.
  destruct (advance_ticking p w Hp T) as (w' & Ha & T' & Hck).
  destruct T as (I & Hum & Hto & Hc & Hdue & Hot).
  destruct (advance_full w I Hum) as (w2 & Ha2 & _ & Hp2 & _ & _ & _ & Hif).
  rewrite (ticking_one w w2 w' Ha2 Ha) in *. clear Ha2 w2.
  exists w'. split; [exact Ha|]. split; [exact T'|]. split; [exact Hck|].
  split; [congruence|].
  assert (Hmo : mounted w = true).
  { destruct (mounted w) eqn:E; auto.
    rewrite (inv_gone w I E) in Hum. discriminate. }
  pose proof (inv_ready w I) as Hr.
  pose proof (inv_idle w I) as Hi.
  pose proof (inv_live w I Hmo) as Hv.
  rewrite Hdue in Hif. pose proof Hp as Hp0.
  destruct (Z.eqb_spec ((clock (runtime w) / p + 1) * p) (clock (runtime w) + 1))
    as [E|E].
  - rewrite (div_next_hit p _ Hp0 Hc E).
    assert (Hn : (clock (runtime w) / p + 1 =? clock (runtime w) / p) = false)
      by (apply Z.eqb_neq; lia).
    rewrite Hn. destruct Hif as (Hg & Hiv & Hinf).
    rewrite Hpa in Hg, Hiv, Hinf. unfold on_tick, react in Hg, Hiv, Hinf.
    destruct (guard w) as [tr [[|]|]]; simpl in *; subst tr; simpl in *;
      try congruence.
    + specialize (Hi eq_refl). rewrite Hg, Hiv, Hinf, Hi. repeat split; lia.
    + specialize (Hv eq_refl). rewrite Hg, Hiv, Hinf, Hv. repeat split; lia.
  - rewrite (div_next_miss p _ Hp0 Hc E), Z.eqb_refl.
    destruct Hif as [Hcalls Hg]. rewrite Hcalls, Hg. repeat split. exact Ht.
Qed.

Lemma elapse_unpaused (p : Z) (ms : nat) (w : World) :
  0 < p ->
  ticking p w ->
  paused (props w) = false ->
  intervalTrigger (guard w) = false ->
  exists w',
    elapse ms w = Done w' /\ ticking p w' /\
    clock (runtime w') = clock (runtime w) + Z.of_nat ms /\
    paused (props w') = false /\
    intervalTrigger (guard w') = false /\
    (invocations (calls w') + inflight (calls w) =
     invocations (calls w) + inflight (calls w'))%nat /\
    if Z.eqb ((clock (runtime w) + Z.of_nat ms) / p) (clock (runtime w) / p)
    then inflight (calls w') = inflight (calls w)
    else inflight (calls w') = 1%nat.
Proof.
  intro Hp. pose proof Hp as Hp0.
  revert w. induction ms as [|ms IH]; intros w T Hpa Ht.
  - exists w. simpl. split; [reflexivity|]. split; [exact T|].
    split; [lia|]. split; [exact Hpa|]. split; [exact Ht|]. split; [lia|].
    rewrite Z.add_0_r, Z.eqb_refl. reflexivity.
  - destruct (advance_unpaused p w Hp T Hpa Ht)
      as (w1 & Ha & T1 & Hc1 & Hp1 & Ht1 & Hb1 & Hi1).
    destruct (IH w1 T1 Hp1 Ht1) as (w' & He & T' & Hc' & Hp' & Ht' & Hb' & Hi').
    exists w'. simpl elapse. rewrite Ha. cbn [bind].
    split; [exact He|]. split; [exact T'|]. split; [lia|].
    split; [exact Hp'|]. split; [exact Ht'|]. split; [lia|].
    assert (Hc0 : 0 <= clock (runtime w)) by apply T.
    rewrite Hc1 in Hi'.
    replace (clock (runtime w) + Z.of_nat (S ms))
      with (clock (runtime w) + 1 + Z.of_nat ms) by lia.
    pose proof (Z.div_le_mono (clock (runtime w)) (clock (runtime w) + 1) p Hp0
                              ltac:(lia)) as M1.
    pose proof (Z.div_le_mono (clock (runtime w) + 1)
                              (clock (runtime w) + 1 + Z.of_nat ms) p Hp0
                              ltac:(lia)) as M2.
    destruct (Z.eqb_spec ((clock (runtime w) + 1) / p) (clock (runtime w) / p));
      destruct (Z.eqb_spec ((clock (runtime w) + 1 + Z.of_nat ms) / p)
                           ((clock (runtime w) + 1) / p));
      destruct (Z.eqb_spec ((clock (runtime w) + 1 + Z.of_nat ms) / p)
                           (clock (runtime w) / p));
      try lia; congruence.
Qed.

Lemma ticking_settle (p : Z) (s : Settlement) (w : World) :
  ticking p w ->
  paused (props w) = false ->
  intervalTrigger (guard w) = false ->
  inflight (calls w) = 1%nat ->
  exists w',
    step w (Settle s) = Done w' /\ ticking p w' /\
    clock (runtime w') = clock (runtime w) /\
    paused (props w') = false /\
    intervalTrigger (guard w') = false /\
    invocations (calls w') = invocations (calls w) /\
    inflight (calls w') = 0%nat.
Proof.
  intros (I & Hum & Hto & Hc & Hdue & Hot) Hpa Ht Hin.
  destruct (settle_spec s w I)
    as (w' & Hs & I' & Hp & _ & Hrt & Hum' & Hot' & Hg & Hiv & Hif).
  exists w'. simpl. split; [exact Hs|].
  split.
  { unfold ticking, the_due in *. rewrite Hrt, Hum', Hp, Hot'.
    split; [exact I'|]. repeat split; auto. }
  rewrite Hrt, Hp, Hiv, Hif, Hin, Hg.
  repeat split; auto. destruct (mounted w); simpl; exact Ht.
Qed.

Lemma rounds_run (p : Z) (ss : list Settlement) (w : World) :
  0 < p ->
  ticking p w ->
  paused (props w) = false ->
  intervalTrigger (guard w) = false ->
  inflight (calls w) = 0%nat ->
  exists w',
    run (rounds p ss) w = Done w' /\ ticking p w' /\
    paused (props w') = false /\
    inflight (calls w') = 0%nat /\
    invocations (calls w') = (invocations (calls w) + length ss)%nat /\
    clock (runtime w') = clock (runtime w) + Z.of_nat (length ss) * p.
Proof.
  intro Hp. revert w. induction ss as [|s ss IH]; intros w T Hpa Ht Hin.
  - exists w. simpl. split; [reflexivity|]. split; [exact T|].
    repeat split; auto; lia.
  - destruct (elapse_unpaused p (Z.to_nat p) w Hp T Hpa Ht)
      as (w1 & He & T1 & Hc1 & Hp1 & Ht1 & Hb1 & Hi1).
    rewrite Z2Nat.id in Hc1, Hi1 by lia.
    replace (clock (runtime w) + p) with (clock (runtime w) + 1 * p) in Hi1 by lia.
    rewrite Z.div_add in Hi1 by lia.
    assert (Hn : (clock (runtime w) / p + 1 =? clock (runtime w) / p) = false)
      by (apply Z.eqb_neq; lia).
    rewrite Hn in Hi1.
    destruct (ticking_settle p s w1 T1 Hp1 Ht1 Hi1)
      as (w2 & Hs & T2 & Hc2 & Hp2 & Ht2 & Hiv2 & Hif2).
    destruct (IH w2 T2 Hp2 Ht2 Hif2) as (w' & Hr & T' & Hp' & Hif' & Hiv' & Hc').
    exists w'.
    change (rounds p (s :: ss)) with (Elapse (Z.to_nat p) :: Settle s :: rounds p ss).
    cbn [run enabled step]. rewrite He. cbn [bind]. rewrite Hi1.
    cbn [Nat.eqb negb]. simpl in Hs. rewrite Hs. cbn [bind].
    split; [exact Hr|]. split; [exact T'|]. split; [exact Hp'|].
    split; [exact Hif'|].
    split; [simpl length; lia|]. simpl length. lia.
Qed.

(** X5.  A task that always settles before the next tick is invoked once per
    period, when React renders each tick before the next event: with a period
    [p] between 1 and 2^31-1 and a task that takes [d < p] milliseconds,
    after any number of periods the task has been invoked once for every
    tick, none is left in flight, and it makes no difference whether the runs
    were fulfilled or rejected. *)
Theorem fast_task_runs_once_per_period (p d : Z) (ss : list Settlement) :
  0 < p <= TIMEOUT_MAX ->
  0 <= d < p ->
  exists w,
    play (mkProps false p) (Elapse (Z.to_nat d) :: rounds p ss) = Done w /\
    invocations (calls w) = length ss /\
    inflight (calls w) = 0%nat /\
    length (onTicks (calls w)) = length ss /\
    clock (runtime w) = d + Z.of_nat (length ss) * p.
Proof.
  intros Hpm Hd. pose proof (proj1 Hpm) as Hp.
  destruct (mount_ticking false p) as (w0 & Hm & T0 & Hc0 & Hcalls0 & Hg0).
  rewrite timer_period_id in T0 by lia.
  destruct (mount_spec (mkProps false p)) as (w0' & Hm' & _ & Hpr & _).
  rewrite Hm in Hm'. inversion Hm'; subst w0'. clear Hm'.
  assert (Hpa0 : paused (props w0) = false) by (rewrite Hpr; reflexivity).
  assert (Ht0 : intervalTrigger (guard w0) = false) by (rewrite Hg0; reflexivity).
  destruct (elapse_unpaused p (Z.to_nat d) w0 Hp T0 Hpa0 Ht0)
    as (w1 & He & T1 & Hc1 & Hp1 & Ht1 & Hb1 & Hi1).
  rewrite Z2Nat.id, Hc0, Hcalls0 in * by lia. simpl in Hb1, Hi1, Hc1.
  rewrite Z.div_small in Hi1 by lia. simpl in Hi1.
  destruct (rounds_run p ss w1 Hp T1 Hp1 Ht1 Hi1)
    as (w & Hr & T & Hpa & Hif & Hiv & Hc).
  exists w. unfold play. rewrite Hm. cbn [bind run enabled step].
  rewrite He. cbn [bind].
  split; [exact Hr|]. split; [lia|]. split; [exact Hif|].
  split; [|lia].
  destruct T as (_ & _ & _ & _ & _ & Hot). rewrite Hot, Hc, Hc1.
  unfold tick_times. rewrite length_rev, length_map, length_seq.
  rewrite Z.div_add, Z.div_small by lia. simpl. apply Nat2Z.id.
Qed.

Lemma fast_task_runs_once_per_period_witness :
  exists w,
    play (mkProps false 10) (Elapse (Z.to_nat 4) :: rounds 10 [Fulfilled; Rejected; Fulfilled])
      = Done w /\
    invocations (calls w) = length [Fulfilled; Rejected; Fulfilled] /\
    inflight (calls w) = 0%nat /\
    length (onTicks (calls w)) = length [Fulfilled; Rejected; Fulfilled] /\
    clock (runtime w) = 4 + Z.of_nat (length [Fulfilled; Rejected; Fulfilled]) * 10.
Proof.
  apply (fast_task_runs_once_per_period 10 4 [Fulfilled; Rejected; Fulfilled]);
    unfold TIMEOUT_MAX; lia.
Defined.

(** ** A stopped timer *)

Lemma stopped_step (w : World) (e : Event) :
  Inv w ->
  unmountedRef (refs w) = true ->
  enabled w e = true ->
  exists w',
    step w e = Done w' /\ Inv w' /\
    unmountedRef (refs w') = true /\
    onTicks (calls w') = onTicks (calls w).
Proof.
  intros I Hum En. destruct e as [|ms|s|p| |k|k p]; simpl in *.
  - exists w. rewrite (tick_dropped w Hum).
    split; [reflexivity|]. split; [exact I|]. split; [exact Hum | reflexivity].
  - destruct (elapse_spec ms w I) as (w' & He & I' & _ & Hum' & _ & Hd).
    destruct (Hd Hum) as [_ Hc].
    exists w'. split; [exact He|]. split; [exact I'|].
    split; congruence.
  - destruct (settle_spec s w I)
      as (w' & Hs & I' & _ & _ & _ & Hum' & Hot & _).
    exists w'. split; [exact Hs|]. split; [exact I'|].
    split; congruence.
  - destruct (rerender_spec p w I En)
      as (w' & Hr & I' & _ & _ & Hot & _ & _ & _ & _ & _ & Hif).
    exists w'. split; [exact Hr|]. split; [exact I'|].
    split; [|exact Hot].
    destruct (Z.eqb (timeout (props w)) (timeout p));
      destruct Hif as [H1 H2]; congruence.
  - destruct (unmount_spec w I En) as (w' & Hu & I' & _ & _ & _ & Hc & Hum' & _).
    exists w'. split; [exact Hu|]. split; [exact I'|].
    split; congruence.
  - exists w. unfold tick_race. rewrite Hum.
    split; [reflexivity|]. split; [exact I|]. split; reflexivity.
  - destruct (rerender_race_spec k p w I En)
      as (w' & Hr & I' & _ & _ & _ & _ & _ & _ & _ & Hif & _ & Hot).
    assert (Hum' : unmountedRef (refs w') = true).
    { destruct (Z.eqb (timeout (props w)) (timeout p));
        destruct Hif as [H1 H2]; congruence. }
    exists w'. split; [exact Hr|]. split; [exact I'|].
    split; [exact Hum'|].
    rewrite Hum' in Hot. simpl in Hot. rewrite andb_false_r in Hot. exact Hot.
Qed.

(** X6.  Once [unmountedRef] is set, by unmounting or by a change of the
    timeout, it stays set: whatever happens afterwards, also a render with
    the first timeout again, no timer is live and [savedCallback.current] is
    not called again. *)
Theorem stopped_timer_stays_stopped (w : World) (es : list Event) :
  Reachable w ->
  unmountedRef (refs w) = true ->
  run es w = Refused \/
  exists w',
    run es w = Done w' /\
    unmountedRef (refs w') = true /\
    intervals (runtime w') = [] /\
    onTicks (calls w') = onTicks (calls w).
Proof.
  intros R Hum. pose proof (Reachable_Inv w R) as I. clear R.
  revert w I Hum. induction es as [|e es IH]; intros w I Hum.
  - right. exists w. split; [reflexivity|]. split; [exact Hum|].
    split; [|reflexivity].
    pose proof (inv_timer w I) as It. unfold timer_ok in It.
    rewrite Hum in It. exact It.
  - simpl. destruct (enabled w e) eqn:En; [|left; reflexivity].
    destruct (stopped_step w e I Hum En) as (w1 & St & I1 & Hum1 & Hot1).
    rewrite St. simpl.
    destruct (IH w1 I1 Hum1) as [H|(w' & H & Hum' & Hiv' & Hot')].
    + left; exact H.
    + right. exists w'. split; [exact H|]. repeat split; congruence.
Qed.

Lemma stopped_timer_stays_stopped_witness :
  run [Rerender (mkProps false 10); Elapse 50; Tick] stopped_world = Refused \/
  exists w',
    run [Rerender (mkProps false 10); Elapse 50; Tick] stopped_world = Done w' /\
    unmountedRef (refs w') = true /\
    intervals (runtime w') = [] /\
    onTicks (calls w') = onTicks (calls stopped_world).
Proof.
  apply (stopped_timer_stays_stopped stopped_world).
  - apply (play_Reachable (mkProps false 10) [Rerender (mkProps false 5)]).
    vm_compute. reflexivity.
  - reflexivity.
Defined.

(** X7.  [setInterval] is called once in the life of the component, at
    mount: whatever happens afterwards, [timeoutRef] names the timer made
    then, no further timer id is handed out, and every live timer still has
    the period that the timeout of the first render gave it (that timeout
    when it lies between 1 and 2^31-1, one millisecond otherwise), also
    after renders with other timeouts. *)
Theorem timer_is_made_once (p : Props) (es : list Event) (w0 w : World) :
  mount p = Done w0 ->
  run es w0 = Done w ->
  timeoutRef (refs w) = timeoutRef (refs w0) /\
  next_id (runtime w) = next_id (runtime w0) /\
  Forall (fun iv => iv_period iv = timer_period (timeout p)) (intervals (runtime w)).
Proof.
  intros Hm Hr.
  destruct (mount_spec p) as (w0' & Hm' & I0 & _ & _ & _ & _ & Hrt & Htr & _).
  rewrite Hm in Hm'. inversion Hm'; subst w0'. clear Hm'.
  assert (F0 : timer_fixed 1 2 (timer_period (timeout p)) w0).
  { unfold timer_fixed. rewrite Htr, Hrt. simpl.
    destruct (inv_synced w0 I0) as (d & Hd & _).
    repeat split; auto; try congruence. }
  destruct (timer_fixed_run _ _ _ es w0 w F0 Hr) as (Hh & Hn & _ & Hf).
  rewrite Hh, Hn, Htr, Hrt. simpl. repeat split.
  eapply Forall_impl; [|exact Hf]. intros iv [_ H]. exact H.
Qed.

Lemma timer_is_made_once_witness :
  timeoutRef (refs stopped_world) = timeoutRef (refs idle_world) /\
  next_id (runtime stopped_world) = next_id (runtime idle_world) /\
  Forall (fun iv => iv_period iv = timer_period (timeout (mkProps false 10)))
         (intervals (runtime stopped_world)).
Proof.
  apply (timer_is_made_once (mkProps false 10) [Rerender (mkProps false 5)]).
  - vm_compute. reflexivity.
  - vm_compute. reflexivity.
Defined.

(** ** Renders by the owner *)

Lemma calls_eq (a b : Calls) :
  onTicks a = onTicks b -> invocations a = invocations b ->
  inflight a = inflight b -> a = b.
Proof. destruct a, b; simpl; intros -> -> ->; reflexivity. Qed.

(** X8.  A render of a mounted component with the pause flag it already had
    changes neither the cells nor the record of calls, and a render with the
    timeout it already had leaves the timers and [unmountedRef] alone. *)
Theorem render_with_same_arguments (w : World) (p : Props) :
  Reachable w ->
  mounted w = true ->
  exists w',
    step w (Rerender p) = Done w' /\
    (paused p = paused (props w) -> guard w' = guard w /\ calls w' = calls w) /\
    (timeout p = timeout (props w) ->
     runtime w' = runtime w /\ unmountedRef (refs w') = unmountedRef (refs w)).
Proof.
  intros R Hmo. pose proof (Reachable_Inv w R) as I.
  destruct (rerender_spec p w I Hmo)
    as (w' & Hr & _ & _ & _ & Hot & Hg & Hiv & Hif & _ & _ & Hk).
  exists w'. simpl. split; [exact Hr|]. split.
  - intro Hpa. rewrite Hpa, Bool.eqb_reflx in Hg, Hiv, Hif.
    unfold react in Hg, Hiv, Hif. simpl in Hg, Hiv, Hif.
    split; [exact Hg|]. apply calls_eq; assumption.
  - intro Hto. rewrite Hto, Z.eqb_refl in Hk. exact Hk.
Qed.

Lemma render_with_same_arguments_witness :
  exists w',
    step busy_world (Rerender (mkProps false 10)) = Done w' /\
    (paused (mkProps false 10) = paused (props busy_world) ->
     guard w' = guard busy_world /\ calls w' = calls busy_world) /\
    (timeout (mkProps false 10) = timeout (props busy_world) ->
     runtime w' = runtime busy_world /\
     unmountedRef (refs w') = unmountedRef (refs busy_world)).
Proof.
  apply (render_with_same_arguments busy_world (mkProps false 10)).
  - apply (play_Reachable (mkProps false 10) [Elapse 10]). vm_compute. reflexivity.
  - reflexivity.
Defined.

(** X10.  A render of a mounted component, React rendering before anything
    else happens, invokes the task in exactly one case: the guard was paused,
    the render is not, the trigger is set and [ready] is true.  The render
    resets the trigger exactly when it unpauses the guard: a trigger that is
    set survives every other render, a render that leaves an unpaused guard
    unpaused included. *)
Theorem render_invokes_only_on_unpause (w : World) (p : Props) :
  Reachable w ->
  mounted w = true ->
  exists w',
    step w (Rerender p) = Done w' /\
    invocations (calls w') =
      (if paused (props w) && negb (paused p) &&
          intervalTrigger (guard w) && truthy (ready (guard w))
       then S (invocations (calls w))
       else invocations (calls w)) /\
    intervalTrigger (guard w') =
      intervalTrigger (guard w) && negb (paused (props w) && negb (paused p)).
Proof.
  intros R Hmo. pose proof (Reachable_Inv w R) as I.
  destruct (rerender_spec p w I Hmo)
    as (w' & Hr & _ & _ & _ & _ & Hg & Hiv & _).
  exists w'. simpl. split; [exact Hr|].
  rewrite Hg, Hiv. unfold react.
  destruct (guard w) as [tr rd]; simpl in *.
  destruct (paused (props w)), (paused p), tr, rd as [[|]|]; simpl;
    split; reflexivity.
Qed.

Lemma render_invokes_only_on_unpause_witness :
  exists w',
    step stuck_world (Rerender (mkProps false 10)) = Done w' /\
    invocations (calls w') =
      (if paused (props stuck_world) && negb (paused (mkProps false 10)) &&
          intervalTrigger (guard stuck_world) && truthy (ready (guard stuck_world))
       then S (invocations (calls stuck_world))
       else invocations (calls stuck_world)) /\
    intervalTrigger (guard w') =
      intervalTrigger (guard stuck_world) &&
      negb (paused (props stuck_world) && negb (paused (mkProps false 10))).
Proof.
  apply (render_invokes_only_on_unpause stuck_world (mkProps false 10)).
  - apply (play_Reachable (mkProps false 10) [TickRace 1]).
    vm_compute. reflexivity.
  - reflexivity.
Defined.

(** ** Timeouts outside the range of the timer *)

Lemma timer_period_out (t : Z) :
  t < 1 \/ TIMEOUT_MAX < t -> timer_period t = 1.
Proof.
  intro H. unfold timer_period.
  destruct (Z.leb_spec 1 t); simpl; [|reflexivity].
  destruct (Z.leb_spec t TIMEOUT_MAX); [lia | reflexivity].
Qed.

(** X13.  Whatever the timeout, the ticks after mounting are those of a timer
    of the period Node gives it: with a timeout that is zero, negative or
    above 2^31-1, [savedCallback.current] is called every millisecond. *)
Theorem timeout_out_of_range_ticks_every_millisecond (pa : bool) (t : Z) (ms : nat) :
  exists w0 w,
    mount (mkProps pa t) = Done w0 /\
    step w0 (Elapse ms) = Done w /\
    onTicks (calls w) = tick_times (timer_period t) (Z.of_nat ms) /\
    (t < 1 \/ TIMEOUT_MAX < t ->
     onTicks (calls w) = rev (map Z.of_nat (seq 1 ms))).
Proof.
  destruct (mount_ticking pa t) as (w0 & Hm & T0 & Hc0 & _).
  pose proof (timer_period_pos t) as Hq.
  destruct (elapse_ticking (timer_period t) ms w0 ltac:(lia) T0)
    as (w & He & T & Hc).
  exists w0, w. simpl. split; [exact Hm|]. split; [exact He|].
  destruct T as (_ & _ & _ & _ & _ & Hot).
  rewrite Hc, Hc0, Z.add_0_l in Hot.
  split; [exact Hot|].
  intro Hout. rewrite Hot, (timer_period_out t Hout).
  unfold tick_times. rewrite Z.div_1_r, Nat2Z.id. f_equal.
  apply map_ext. intro k. lia.
Qed.

Lemma timeout_out_of_range_ticks_every_millisecond_witness :
  exists w0 w,
    mount (mkProps false 0) = Done w0 /\
    step w0 (Elapse 5) = Done w /\
    onTicks (calls w) = tick_times (timer_period 0) (Z.of_nat 5) /\
    (0 < 1 \/ TIMEOUT_MAX < 0 ->
     onTicks (calls w) = rev (map Z.of_nat (seq 1 5))).
Proof.
  apply (timeout_out_of_range_ticks_every_millisecond false 0 5).
Defined.
